(** * PyReliMRI: the tetrachoric correlation estimator

    Shallow embedding of [imgreliability/tetrachoric_correlation.py] and the
    properties its specification states about [tetrachoric_corr].

    Layout of the development:
    - [Module python]: the interpreter-level pieces the function relies on
      ([assert], the builtin [sum] and [len]);
    - [Module numpy]: the array operations the source imports and the
      interface of the scalar operations it uses (the integer product, and
      on [float64]: [/], [+], [sqrt], [cos], [pi]);
    - [tetrachoric_corr] itself, written statement by statement as the
      source, over that interface;
    - [Module exact], [Module int64] and [Module binary64]: three
      arithmetics to run it on;
    - [Module tests]: the property test of [tests/test_similarity_ref.py]
      that calls the function;
    - the properties.

    Integers.  The four frequencies are integer counts and are modelled in
    [Z].  numpy keeps them in 64-bit integers; a count is at most the number
    of elements and stays in range, the product [A*D] of line 24 does not:
    from 2^63 on numpy keeps its low 64 bits, with a warning and no error.
    [exact] multiplies in the integers; [int64] and [binary64] multiply as
    numpy does.  On vectors of fewer than 2^32 elements the two products
    agree.

    Floats.  Which class of value comes back (1.0, -1.0, a number of
    [[-1, 1]], not-a-number) is settled in [exact] and [int64]: a [float64]
    is a finite real number, one of the two infinities, or not-a-number;
    infinities, division by zero and not-a-number follow IEEE-754 as numpy
    applies it (a warning, never an exception), and finite arithmetic is not
    rounded.  Every zero the function can form is [+0.0], from a count or a
    product that is 0 or from a division by an infinity, and there is that
    single zero.  What depends on the last bits of a finite result is stated
    for every arithmetic, or in [binary64], the bit-for-bit arithmetic: the
    operations of IEEE-754 double precision with round-to-nearest-even, as
    the Rocq library specifies them, and the cosine, which IEEE-754 does not
    define, supplied from outside. *)

From Stdlib Require Import ZArith List Bool Reals Lra Lia SpecFloat.
From Stdlib Require Import Permutation.
Import ListNotations.

Set Implicit Arguments.

(* ================================================================== *)
(** * Python: exceptions, [assert], [len], [sum] *)
(* ================================================================== *)

Module python.

(** The three [assert] statements of the function.  The last one formats
    the two lengths into its message. *)
Inductive assertion : Type :=
| Img1Empty
| Img2Empty
| LengthMismatch (len1 len2 : nat).

(** A failed [assert] raises [AssertionError]; the specification calls this
    precondition failure [InvalidInputError]. *)
Inductive exn : Type :=
| AssertionError (site : assertion).

(** Outcome of running a function body: it raises or it returns. *)
Inductive result (T : Type) : Type :=
| Raise (e : exn)
| Return (x : T).

Arguments Raise {T} e.
Arguments Return {T} x.

Definition bind {T U : Type} (r : result T) (k : T -> result U) : result U :=
  match r with
  | Raise e => Raise e
  | Return x => k x
  end.

(** [assert cond, msg] *)
Definition assert (cond : bool) (site : assertion) : result unit :=
  if cond then Return tt else Raise (AssertionError site).

Definition len {T : Type} (a : list T) : nat := length a.

(** The builtin [sum]: a left fold of [+] that starts from the integer 0.
    Adding a numpy boolean promotes it to an integer. *)
Definition sum (a : list bool) : Z :=
  fold_left (fun acc b => (acc + Z.b2z b)%Z) a 0%Z.

End python.

Notation "c ;; k" := (python.bind c (fun _ => k))
  (at level 61, right associativity).

(* ================================================================== *)
(** * numpy: arrays and the interface of the scalar operations *)
(* ================================================================== *)

Module numpy.

(** A one-dimensional integer array. *)
Definition ndarray : Type := list Z.

(** [img == k]: elementwise comparison with a scalar. *)
Definition eq_scalar (img : ndarray) (k : Z) : list bool :=
  map (fun x => (x =? k)%Z) img.

(** [logical_and(m1, m2)] on two masks.  The function only calls it after
    asserting that the lengths agree, so the shorter-operand case below is
    never reached. *)
Fixpoint logical_and (m1 m2 : list bool) : list bool :=
  match m1, m2 with
  | x :: m1', y :: m2' => (x && y) :: logical_and m1' m2'
  | _, _ => []
  end.

(** The scalar operations of lines 24 and 26.  Line 24 multiplies two
    integer scalars: [multiply] is that product, which does not depend on
    the order of its operands.  Line 26 works in [float64]: conversion of an
    integer operand, true division, addition, [sqrt], [cos] and the constant
    [pi]. *)
Class Float64 : Type := {
  multiply : Z -> Z -> Z;
  multiply_comm : forall a b : Z, multiply a b = multiply b a;
  float64 : Type;
  of_int : Z -> float64;
  pi : float64;
  true_divide : float64 -> float64 -> float64;
  add : float64 -> float64 -> float64;
  sqrt : float64 -> float64;
  cos : float64 -> float64
}.

End numpy.

Declare Scope float64_scope.
Delimit Scope float64_scope with f64.
Notation "x / y" := (numpy.true_divide x y) : float64_scope.
Notation "x + y" := (numpy.add x y) : float64_scope.

(* ================================================================== *)
(** * The estimator *)
(* ================================================================== *)

Import python.
Import numpy(ndarray, Float64, float64, of_int, eq_scalar, logical_and).

(** [tetrachoric_corr(img1, img2)], lines 13 to 26 of the source. *)
Definition tetrachoric_corr {F : Float64} (img1 img2 : ndarray) : result float64 :=
  assert (0 <? len img1)%nat Img1Empty ;;
  assert (0 <? len img2)%nat Img2Empty ;;
  assert (len img1 =? len img2)%nat (LengthMismatch (len img1) (len img2)) ;;
  let A := sum (logical_and (eq_scalar img1 0) (eq_scalar img2 0)) in
  let B := sum (logical_and (eq_scalar img1 0) (eq_scalar img2 1)) in
  let C := sum (logical_and (eq_scalar img1 1) (eq_scalar img2 0)) in
  let D := sum (logical_and (eq_scalar img1 1) (eq_scalar img2 1)) in
  let AD := numpy.multiply A D in
  Return (numpy.cos (numpy.pi / (of_int 1 + numpy.sqrt (of_int AD / of_int B / of_int C)))%f64).

(* ================================================================== *)
(** * float64 by class, finite arithmetic exact *)
(* ================================================================== *)

Module exact.

Inductive float : Type :=
| Fin (r : R)
| PInf
| NInf
| NaN.

Definition of_int (z : Z) : float := Fin (IZR z).

Definition pi : float := Fin PI.

(** True division.  A finite non-zero value over zero is an infinity of the
    sign of the numerator, zero over zero is not-a-number. *)
Definition true_divide (x y : float) : float :=
  match x, y with
  | NaN, _ | _, NaN => NaN
  | Fin a, Fin b =>
      if Req_dec_T b 0 then
        if Req_dec_T a 0 then NaN
        else if Rlt_dec 0 a then PInf else NInf
      else Fin (a / b)
  | Fin _, (PInf | NInf) => Fin 0
  | PInf, Fin b => if Rle_dec 0 b then PInf else NInf
  | NInf, Fin b => if Rle_dec 0 b then NInf else PInf
  | (PInf | NInf), (PInf | NInf) => NaN
  end.

Definition add (x y : float) : float :=
  match x, y with
  | NaN, _ | _, NaN => NaN
  | Fin a, Fin b => Fin (a + b)
  | PInf, NInf | NInf, PInf => NaN
  | PInf, _ | _, PInf => PInf
  | NInf, _ | _, NInf => NInf
  end.

(** [sqrt]: not-a-number below zero. *)
Definition sqrt (x : float) : float :=
  match x with
  | Fin a => if Rlt_dec a 0 then NaN else Fin (R_sqrt.sqrt a)
  | PInf => PInf
  | NInf | NaN => NaN
  end.

(** [cos]: not-a-number at the infinities. *)
Definition cos (x : float) : float :=
  match x with
  | Fin a => Fin (Rtrigo_def.cos a)
  | PInf | NInf | NaN => NaN
  end.

Definition isnan (x : float) : bool :=
  match x with
  | NaN => true
  | _ => false
  end.

(** The arithmetic of mathematics: the product of line 24 is the integer
    product, whatever its size. *)
#[global] Instance ops : Float64 :=
  {| numpy.multiply := Z.mul;
     numpy.multiply_comm := Z.mul_comm;
     numpy.float64 := float;
     numpy.of_int := of_int;
     numpy.pi := pi;
     numpy.true_divide := true_divide;
     numpy.add := add;
     numpy.sqrt := sqrt;
     numpy.cos := cos |}.

End exact.

(** A statement that mentions [Fin], [PInf], [NInf] or [NaN] is about
    [tetrachoric_corr] run on [exact]. *)
Canonical exact.ops.

Import exact(Fin, PInf, NInf, NaN).

(* ================================================================== *)
(** * The integers of numpy *)
(* ================================================================== *)

Module int64.

(** A 64-bit signed integer keeps the low 64 bits of a value, read in two's
    complement: a value of [-2^63 .. 2^63 - 1] is kept, any other comes back
    into that range. *)
Definition wrap (z : Z) : Z := ((z + 2 ^ 63) mod 2 ^ 64 - 2 ^ 63)%Z.

(** [a * b] on two [np.int64] scalars: on overflow numpy warns and returns
    the low 64 bits. *)
Definition multiply (a b : Z) : Z := wrap (a * b).

Definition multiply_comm (a b : Z) : multiply a b = multiply b a :=
  f_equal wrap (Z.mul_comm a b).

(** The arithmetic of [exact] with the product of line 24 taken in 64 bits,
    as numpy takes it. *)
Definition ops : Float64 :=
  {| numpy.multiply := multiply;
     numpy.multiply_comm := multiply_comm;
     numpy.float64 := exact.float;
     numpy.of_int := exact.of_int;
     numpy.pi := exact.pi;
     numpy.true_divide := exact.true_divide;
     numpy.add := exact.add;
     numpy.sqrt := exact.sqrt;
     numpy.cos := exact.cos |}.

End int64.

(* ================================================================== *)
(** * float64 bit for bit *)
(* ================================================================== *)

Module binary64.

(** Double precision: 53 bits of mantissa, exponents below 1024. *)
Definition prec : Z := 53.
Definition emax : Z := 1024.

Definition float : Type := spec_float.

(** An integer operand, rounded to nearest-even. *)
Definition of_int (z : Z) : float := binary_normalize prec emax z 0 false.

(** numpy's [pi], [0x1.921fb54442d18p+1]. *)
Definition pi : float := S754_finite false 7074237752028440 (-51).

Definition true_divide : float -> float -> float := SFdiv prec emax.
Definition add : float -> float -> float := SFadd prec emax.
Definition sqrt : float -> float := SFsqrt prec emax.

(** The operations, around a cosine routine [cos64]; the product of line 24
    is the 64-bit one. *)
Definition ops (cos64 : float -> float) : Float64 :=
  {| numpy.multiply := int64.multiply;
     numpy.multiply_comm := int64.multiply_comm;
     numpy.float64 := float;
     numpy.of_int := of_int;
     numpy.pi := pi;
     numpy.true_divide := true_divide;
     numpy.add := add;
     numpy.sqrt := sqrt;
     numpy.cos := cos64 |}.

Definition finite (x : float) : bool :=
  match x with
  | S754_zero _ | S754_finite _ _ _ => true
  | S754_infinity _ | S754_nan => false
  end.

(** The real number a finite float denotes. *)
Definition to_R (x : float) : R :=
  match x with
  | S754_finite s m e =>
      ((if s then -1 else 1) * (IZR (Z.pos m) * powerRZ 2 e))%R
  | _ => 0%R
  end.

(** A cosine routine of the accuracy of a mathematical library: on a
    finite argument the result is finite and within 2^-53 of the cosine,
    which is one unit in the last place for results of magnitude 1/2 to 1
    and more than that below. *)
Definition accurate (cos64 : float -> float) : Prop :=
  forall x : float, finite x = true ->
    finite (cos64 x) = true
    /\ (Rabs (to_R (cos64 x) - Rtrigo_def.cos (to_R x)) <= / 2 ^ 53)%R.

(** The multiple [k * 2^-53]. *)
Definition grid (k : Z) : float :=
  match k with
  | Z0 => S754_zero false
  | Z.pos p => S754_finite false p (-53)
  | Z.neg p => S754_finite true p (-53)
  end.

(** One accurate routine: the cosine rounded down to a multiple of 2^-53. *)
Definition cos_floor (x : float) : float :=
  grid (Int_part (Rtrigo_def.cos (to_R x) * 2 ^ 53)).

End binary64.

(* ================================================================== *)
(** * Vocabulary of the specification *)
(* ================================================================== *)

(** A binary vector: every element is coded 0 or 1. *)
Definition binary (img : ndarray) : bool :=
  forallb (fun x => (x =? 0)%Z || (x =? 1)%Z) img.

(** Number of positions where [img1] holds [a] and [img2] holds [b]. *)
Definition cell (a b : Z) (img1 img2 : ndarray) : Z :=
  sum (logical_and (eq_scalar img1 a) (eq_scalar img2 b)).

(** The contingency counts A, B, C, D of lines 19 to 22. *)
Definition count_A : ndarray -> ndarray -> Z := cell 0 0.
Definition count_B : ndarray -> ndarray -> Z := cell 0 1.
Definition count_C : ndarray -> ndarray -> Z := cell 1 0.
Definition count_D : ndarray -> ndarray -> Z := cell 1 1.

(** Lines 24 and 26 as a function of the four counts. *)
Definition estimate {F : Float64} (A B C D : Z) : float64 :=
  let AD := numpy.multiply A D in
  numpy.cos (numpy.pi / (of_int 1 + numpy.sqrt (of_int AD / of_int B / of_int C)))%f64.

(** [img2] is the elementwise complement of [img1]. *)
Definition complement (img1 img2 : ndarray) : Prop :=
  img2 = map (fun x => (1 - x)%Z) img1.

(** Number of positions [i] with [img1[i] = a] and [img2[i] = b], counted
    on the positions themselves, as the specification words the four
    counts. *)
Definition positions (a b : Z) (img1 img2 : ndarray) : Z :=
  Z.of_nat (length (filter (fun p => (fst p =? a)%Z && (snd p =? b)%Z)
                           (combine img1 img2))).

(** The reference expression of the specification,
    [cos(pi / (1 + sqrt((A*D) / (B*C))))], evaluated as it is written, with
    one division by the product [B*C], in the arithmetic [F]. *)
Definition reference_expression {F : Float64} (A B C D : Z) : float64 :=
  numpy.cos (numpy.pi / (of_int 1 + numpy.sqrt
    (of_int (numpy.multiply A D) / of_int (numpy.multiply B C))))%f64.

(** A long binary vector: [n] zeros, then [mid], then [n] ones. *)
Definition zeros_ones (n : Z) (mid : ndarray) : ndarray :=
  repeat 0%Z (Z.to_nat n) ++ mid ++ repeat 1%Z (Z.to_nat n).

(** The function raises. *)
Definition raises {T : Type} (r : result T) : Prop :=
  exists site, r = Raise (AssertionError site).

(** The function returns the not-a-number marker. *)
Definition returns_nan (r : result exact.float) : Prop :=
  exists x, r = Return x /\ exact.isnan x = true.

(* ================================================================== *)
(** * Vocabulary of the further properties *)
(* ================================================================== *)

(** The vector with the coding reversed, [1 - img]. *)
Definition flip (img : ndarray) : ndarray := map (fun x => (1 - x)%Z) img.

(** Number of pairs of a list that are [(a, b)]. *)
Definition pair_count (a b : Z) (ps : list (Z * Z)) : Z :=
  sum (map (fun p => (fst p =? a)%Z && (snd p =? b)%Z) ps).

(** A pair of entries that are both coded 0 or 1. *)
Definition coded (p : Z * Z) : bool :=
  ((fst p =? 0)%Z || (fst p =? 1)%Z) && ((snd p =? 0)%Z || (snd p =? 1)%Z).

(** The paired observations of two vectors that are coded on both sides. *)
Definition coded_pairs (img1 img2 : ndarray) : list (Z * Z) :=
  filter coded (combine img1 img2).

(* ================================================================== *)
(** * The property test of the repository *)
(* ================================================================== *)

Module tests.

(** [x == y] on float64, run on [exact]: not-a-number equals nothing. *)
Definition float_eq (x y : exact.float) : bool :=
  match x, y with
  | Fin a, Fin b => if Req_dec_T a b then true else false
  | PInf, PInf | NInf, NInf => true
  | _, _ => false
  end.

(** [x <= y] on float64, run on [exact]: false when one side is
    not-a-number. *)
Definition float_le (x y : exact.float) : bool :=
  match x, y with
  | NaN, _ | _, NaN => false
  | NInf, _ | _, PInf => true
  | Fin a, Fin b => if Rle_dec a b then true else false
  | _, _ => false
  end.

(** [a == b] on two rows of one array, elementwise. *)
Fixpoint eq_arrays (a b : ndarray) : list bool :=
  match a, b with
  | x :: a', y :: b' => (x =? y)%Z :: eq_arrays a' b'
  | _, _ => []
  end.

(** [m.all()] *)
Definition all (m : list bool) : bool := forallb (fun b => b) m.

(** How a test function ends: every [assert] held, the [assert] of a given
    line failed, or the function under test raised. *)
Inductive outcome : Type :=
| Passed
| Failed (line : nat)
| Errored (e : exn).

Definition check (cond : bool) (line : nat) : outcome :=
  if cond then Passed else Failed line.

(** The body of [test_tetrachoric_corr_hypothesis], lines 202 to 212 of
    [tests/test_similarity_ref.py], on the two rows [vec[0, :]] and
    [vec[1, :]] of the drawn array. *)
Definition test_tetrachoric_corr_hypothesis (vec0 vec1 : ndarray) : outcome :=
  match tetrachoric_corr vec0 vec1 with
  | Raise e => Errored e
  | Return tc =>
      if all (eq_arrays vec0 vec1) then check (float_eq tc (Fin 1)) 204
      else
        let B := sum (logical_and (eq_scalar vec0 0) (eq_scalar vec1 1)) in
        let C := sum (logical_and (eq_scalar vec0 1) (eq_scalar vec1 0)) in
        if (B =? 0)%Z || (C =? 0)%Z then check (exact.isnan tc) 210
        else check (float_le tc (Fin 1) && float_le (Fin (-1)) tc) 212
  end.

(** What the strategy of the test draws: two rows of 24 integers from 0 to
    100. *)
Definition drawn (vec : ndarray) : bool :=
  (len vec =? 24)%nat && forallb (fun x => (0 <=? x)%Z && (x <=? 100)%Z) vec.

End tests.

(* ================================================================== *)
(** * The counts *)
(* ================================================================== *)

Section Counting.

Local Open Scope Z_scope.

(** Evaluates the closed boolean tests met after a case split. *)
Ltac eval_b2z :=
  repeat match goal with
  | |- context [Z.b2z ?b] =>
      let v := eval compute in (Z.b2z b) in progress change (Z.b2z b) with v
  end.

Lemma fold_sum_acc (m : list bool) (acc : Z) :
  fold_left (fun acc b => acc + Z.b2z b) m acc = acc + sum m.
Proof.
  unfold sum. revert acc.
  induction m as [|b m IH]; intros acc; simpl.
  - lia.
  - rewrite IH, (IH (Z.b2z b)). lia.
Qed.

Lemma sum_nil : sum [] = 0.
Proof. reflexivity. Qed.

Lemma sum_cons (b : bool) (m : list bool) : sum (b :: m) = Z.b2z b + sum m.
Proof. unfold sum at 1. simpl. apply fold_sum_acc. Qed.

#[local] Arguments sum : simpl never.
#[local] Arguments cell : simpl never.

Lemma sum_nonneg (m : list bool) : 0 <= sum m.
Proof.
  induction m as [|b m IH].
  - rewrite sum_nil. lia.
  - rewrite sum_cons. destruct b; eval_b2z; lia.
Qed.

Lemma cell_nil_l (a b : Z) (img2 : ndarray) : cell a b [] img2 = 0.
Proof. reflexivity. Qed.

Lemma cell_nil_r (a b : Z) (img1 : ndarray) : cell a b img1 [] = 0.
Proof. destruct img1; reflexivity. Qed.

Lemma cell_cons (a b x y : Z) (img1 img2 : ndarray) :
  cell a b (x :: img1) (y :: img2)
  = Z.b2z ((x =? a) && (y =? b)) + cell a b img1 img2.
Proof. unfold cell. simpl. apply sum_cons. Qed.

Lemma cell_nonneg (a b : Z) (img1 img2 : ndarray) : 0 <= cell a b img1 img2.
Proof. apply sum_nonneg. Qed.

(** Swapping the two vectors transposes the table. *)
Lemma cell_swap (a b : Z) (img1 img2 : ndarray) :
  cell a b img1 img2 = cell b a img2 img1.
Proof.
  revert img2. induction img1 as [|x img1 IH]; intros [|y img2].
  - reflexivity.
  - rewrite cell_nil_l, cell_nil_r. reflexivity.
  - rewrite cell_nil_l, cell_nil_r. reflexivity.
  - rewrite !cell_cons, IH, andb_comm. reflexivity.
Qed.

(** No discordant pair between a vector and itself. *)
Lemma cell_diag_off (a b : Z) (img : ndarray) :
  a <> b -> cell a b img img = 0.
Proof.
  intros Hab. induction img as [|x img IH].
  - reflexivity.
  - rewrite cell_cons, IH.
    destruct (Z.eqb_spec x a), (Z.eqb_spec x b); eval_b2z; lia.
Qed.

(** On the diagonal the cell counts the occurrences of the value. *)
Lemma cell_diag_pos (a : Z) (img : ndarray) :
  In a img -> 0 < cell a a img img.
Proof.
  induction img as [|x img IH]; cbn [In map]; [tauto|].
  intros [-> | Hin]; rewrite cell_cons.
  - rewrite Z.eqb_refl. eval_b2z. pose proof (cell_nonneg a a img img). lia.
  - specialize (IH Hin). destruct (x =? a); eval_b2z; lia.
Qed.

Lemma cell_diag_zero (a : Z) (img : ndarray) :
  ~ In a img -> cell a a img img = 0.
Proof.
  induction img as [|x img IH]; cbn [In map]; intros Hn.
  - reflexivity.
  - rewrite cell_cons, IH by tauto.
    destruct (Z.eqb_spec x a); eval_b2z; [tauto | lia].
Qed.

Lemma binary_cons (x : Z) (img : ndarray) :
  binary (x :: img) = true <-> (x = 0 \/ x = 1) /\ binary img = true.
Proof.
  unfold binary. simpl. rewrite andb_true_iff, orb_true_iff, !Z.eqb_eq.
  reflexivity.
Qed.

(** The four cells partition the positions of two binary vectors. *)
Lemma cells_partition (img1 img2 : ndarray) :
  binary img1 = true -> binary img2 = true -> len img1 = len img2 ->
  count_A img1 img2 + count_B img1 img2 + count_C img1 img2 + count_D img1 img2
  = Z.of_nat (len img1).
Proof.
  unfold count_A, count_B, count_C, count_D, len.
  revert img2. induction img1 as [|x img1 IH]; intros [|y img2] H1 H2 Hlen;
    try discriminate.
  - reflexivity.
  - apply binary_cons in H1 as [Hx H1]. apply binary_cons in H2 as [Hy H2].
    injection Hlen as Hlen. specialize (IH img2 H1 H2 Hlen).
    rewrite !cell_cons. cbn [length]. rewrite Nat2Z.inj_succ.
    destruct Hx as [-> | ->], Hy as [-> | ->]; eval_b2z; lia.
Qed.

(** Complementary vectors never agree. *)
Lemma cell_complement_agree (a : Z) (img : ndarray) :
  binary img = true -> (a = 0 \/ a = 1) ->
  cell a a img (map (fun x => 1 - x) img) = 0.
Proof.
  intros Hb Ha. induction img as [|x img IH].
  - reflexivity.
  - apply binary_cons in Hb as [Hx Hb]. cbn [map]. rewrite cell_cons, IH by assumption.
    destruct Hx as [-> | ->], Ha as [-> | ->]; reflexivity.
Qed.

(** Against its complement, a vector's zeros are the (0,1) pairs and its
    ones the (1,0) pairs. *)
Lemma cell_complement_pos (a : Z) (img : ndarray) :
  In a img -> 0 < cell a (1 - a) img (map (fun x => 1 - x) img).
Proof.
  induction img as [|x img IH]; cbn [In map]; [tauto|].
  intros [-> | Hin]; rewrite cell_cons.
  - rewrite !Z.eqb_refl. eval_b2z.
    pose proof (cell_nonneg a (1 - a) img (map (fun x => 1 - x) img)). lia.
  - specialize (IH Hin).
    destruct ((x =? a) && (1 - x =? 1 - a)); eval_b2z; lia.
Qed.

Lemma cell_complement_zero (a : Z) (img : ndarray) :
  ~ In a img -> cell a (1 - a) img (map (fun x => 1 - x) img) = 0.
Proof.
  induction img as [|x img IH]; cbn [In map]; intros Hn.
  - reflexivity.
  - rewrite cell_cons, IH by tauto.
    destruct (Z.eqb_spec x a); eval_b2z; [tauto | lia].
Qed.

(** The cells of lines 19 to 22 count positions. *)
Lemma cell_positions (a b : Z) (img1 img2 : ndarray) :
  cell a b img1 img2 = positions a b img1 img2.
Proof.
  unfold positions. revert img2.
  induction img1 as [|x img1 IH]; intros [|y img2]; try reflexivity.
  rewrite cell_cons, IH. cbn [combine filter fst snd].
  destruct ((x =? a) && (y =? b)); eval_b2z; cbn [length]; lia.
Qed.

(** Cells of vectors made of blocks. *)
Lemma cell_app (a b : Z) (u1 u2 v1 v2 : ndarray) :
  len u1 = len u2 ->
  cell a b (u1 ++ v1) (u2 ++ v2) = cell a b u1 u2 + cell a b v1 v2.
Proof.
  unfold len. revert u2.
  induction u1 as [|x u1 IH]; intros [|y u2] Hlen; try discriminate.
  - rewrite cell_nil_l. reflexivity.
  - injection Hlen as Hlen. rewrite <- !app_comm_cons, !cell_cons, IH by assumption.
    lia.
Qed.

Lemma cell_repeat (a b x y : Z) (n : nat) :
  cell a b (repeat x n) (repeat y n)
  = Z.b2z ((x =? a) && (y =? b)) * Z.of_nat n.
Proof.
  induction n as [|n IH].
  - rewrite cell_nil_l. lia.
  - cbn [repeat]. rewrite cell_cons, IH. lia.
Qed.

Lemma cell_zeros_ones (a b n : Z) (mid1 mid2 : ndarray) :
  0 <= n -> len mid1 = len mid2 ->
  cell a b (zeros_ones n mid1) (zeros_ones n mid2)
  = Z.b2z ((0 =? a) && (0 =? b)) * n + cell a b mid1 mid2
    + Z.b2z ((1 =? a) && (1 =? b)) * n.
Proof.
  intros Hn Hlen. unfold zeros_ones.
  rewrite cell_app by (unfold len; rewrite !repeat_length; reflexivity).
  rewrite cell_app by assumption.
  rewrite !cell_repeat, Z2Nat.id by assumption. lia.
Qed.

Lemma binary_zeros_ones (n : Z) (mid : ndarray) :
  binary (zeros_ones n mid) = binary mid.
Proof.
  assert (forall (x : Z) (k : nat), (x = 0 \/ x = 1) -> binary (repeat x k) = true) as Hr.
  { intros x k Hx. induction k as [|k IH]; [reflexivity |].
    cbn [repeat]. apply binary_cons. tauto. }
  unfold zeros_ones, binary. rewrite !forallb_app.
  fold (binary (repeat 0 (Z.to_nat n))). fold (binary (repeat 1 (Z.to_nat n))).
  rewrite !Hr by tauto. rewrite andb_true_r. reflexivity.
Qed.

Lemma len_zeros_ones (n : Z) (mid : ndarray) :
  len (zeros_ones n mid) = (Z.to_nat n + len mid + Z.to_nat n)%nat.
Proof.
  unfold zeros_ones, len. rewrite !length_app, !repeat_length. lia.
Qed.

End Counting.

(* ================================================================== *)
(** * float64 arithmetic on the operands the function forms *)
(* ================================================================== *)

Section Float64.

Local Open Scope R_scope.

Lemma divide_finite (a b : R) :
  b <> 0 -> exact.true_divide (Fin a) (Fin b) = Fin (a / b).
Proof.
  intros Hb. unfold exact.true_divide.
  destruct (Req_dec_T b 0) as [E | _]; [contradiction | reflexivity].
Qed.

Lemma divide_zero_by_zero : exact.true_divide (Fin 0) (Fin 0) = NaN.
Proof.
  unfold exact.true_divide.
  destruct (Req_dec_T 0 0) as [_ | N]; [reflexivity | now elim N].
Qed.

Lemma divide_positive_by_zero (a : R) :
  0 < a -> exact.true_divide (Fin a) (Fin 0) = PInf.
Proof.
  intros Ha. unfold exact.true_divide.
  destruct (Req_dec_T 0 0) as [_ | N]; [| now elim N].
  destruct (Req_dec_T a 0) as [E | _]; [lra |].
  destruct (Rlt_dec 0 a) as [_ | N]; [reflexivity | contradiction].
Qed.

Lemma divide_inf_by_nonneg (b : R) :
  0 <= b -> exact.true_divide PInf (Fin b) = PInf.
Proof.
  intros Hb. unfold exact.true_divide.
  destruct (Rle_dec 0 b) as [_ | N]; [reflexivity | contradiction].
Qed.

Lemma sqrt_finite (a : R) :
  0 <= a -> exact.sqrt (Fin a) = Fin (R_sqrt.sqrt a).
Proof.
  intros Ha. unfold exact.sqrt.
  destruct (Rlt_dec a 0) as [N | _]; [lra | reflexivity].
Qed.

(** The value of [AD/B/C] in each of the three situations the counts allow. *)
Lemma ratio_finite (AD B C : Z) :
  (0 < B)%Z -> (0 < C)%Z ->
  exact.true_divide (exact.true_divide (exact.of_int AD) (exact.of_int B)) (exact.of_int C) = Fin (IZR AD / IZR B / IZR C).
Proof.
  intros HB HC. unfold exact.of_int.
  apply IZR_lt in HB, HC.
  rewrite divide_finite by lra. rewrite divide_finite by lra. reflexivity.
Qed.

Lemma ratio_infinite (AD B C : Z) :
  (0 < AD)%Z -> (0 <= B)%Z -> (0 <= C)%Z -> (B = 0 \/ C = 0)%Z ->
  exact.true_divide (exact.true_divide (exact.of_int AD) (exact.of_int B)) (exact.of_int C) = PInf.
Proof.
  intros HAD HB HC Hz. unfold exact.of_int.
  apply IZR_lt in HAD. apply IZR_le in HC.
  destruct (Z.eq_dec B 0) as [-> | HB0].
  - rewrite divide_positive_by_zero by assumption.
    apply divide_inf_by_nonneg. assumption.
  - assert (C = 0%Z) as -> by lia.
    assert (0 < IZR B) by (apply IZR_lt; lia).
    rewrite divide_finite by lra.
    apply divide_positive_by_zero. apply Rdiv_lt_0_compat; assumption.
Qed.

Lemma ratio_undefined (B C : Z) :
  (0 <= B)%Z -> (0 <= C)%Z -> (B = 0 \/ C = 0)%Z ->
  exact.true_divide (exact.true_divide (exact.of_int 0) (exact.of_int B)) (exact.of_int C) = NaN.
Proof.
  intros HB HC Hz. unfold exact.of_int.
  destruct (Z.eq_dec B 0) as [-> | HB0].
  - rewrite divide_zero_by_zero. reflexivity.
  - assert (C = 0%Z) as -> by lia.
    assert (0 < IZR B) by (apply IZR_lt; lia).
    rewrite divide_finite by lra.
    replace (0 / IZR B) with 0 by (field; lra).
    apply divide_zero_by_zero.
Qed.

(** Lines 24 and 26 run on [exact]. *)
Lemma estimate_exact (A B C D : Z) :
  estimate A B C D
  = exact.cos
      (exact.true_divide exact.pi
         (exact.add (exact.of_int 1)
            (exact.sqrt
               (exact.true_divide
                  (exact.true_divide (exact.of_int (A * D)) (exact.of_int B))
                  (exact.of_int C))))).
Proof. reflexivity. Qed.

(** Lines 24 and 26 on a finite, non-negative ratio. *)
Lemma estimate_regular (A B C D : Z) :
  (0 <= A * D)%Z -> (0 < B)%Z -> (0 < C)%Z ->
  estimate A B C D
  = Fin (Rtrigo_def.cos (PI / (1 + R_sqrt.sqrt (IZR (A * D) / IZR B / IZR C)))).
Proof.
  intros HAD HB HC. rewrite estimate_exact.
  rewrite ratio_finite by assumption.
  assert (0 <= IZR (A * D) / IZR B / IZR C) as Hr.
  { apply IZR_le in HAD. apply IZR_lt in HB, HC.
    apply Rmult_le_pos; [apply Rmult_le_pos |];
      try assumption; left; apply Rinv_0_lt_compat; assumption. }
  rewrite sqrt_finite by assumption.
  unfold exact.of_int, exact.pi, exact.add.
  pose proof (sqrt_pos (IZR (A * D) / IZR B / IZR C)) as Hs.
  rewrite divide_finite by lra. reflexivity.
Qed.

(** An infinite ratio: [sqrt(inf) = inf], [1 + inf = inf], [pi/inf = 0],
    [cos(0) = 1]. *)
Lemma estimate_one (A B C D : Z) :
  (0 < A * D)%Z -> (0 <= B)%Z -> (0 <= C)%Z -> (B = 0 \/ C = 0)%Z ->
  estimate A B C D = Fin 1.
Proof.
  intros HAD HB HC Hz. rewrite estimate_exact.
  rewrite ratio_infinite by assumption.
  cbn. rewrite cos_0. reflexivity.
Qed.

(** [0/0]: not-a-number, which every later operation propagates. *)
Lemma estimate_nan (A B C D : Z) :
  (A * D = 0)%Z -> (0 <= B)%Z -> (0 <= C)%Z -> (B = 0 \/ C = 0)%Z ->
  estimate A B C D = NaN.
Proof.
  intros HAD HB HC Hz. rewrite estimate_exact.
  rewrite HAD, ratio_undefined by assumption. reflexivity.
Qed.

(** A zero ratio: [sqrt(0) = 0], [pi/1 = pi], [cos(pi) = -1]. *)
Lemma estimate_minus_one (A B C D : Z) :
  (A * D = 0)%Z -> (0 < B)%Z -> (0 < C)%Z ->
  estimate A B C D = Fin (-1).
Proof.
  intros HAD HB HC.
  rewrite estimate_regular by lia. rewrite HAD.
  apply IZR_lt in HB, HC.
  replace (0 / IZR B / IZR C) with 0 by (field; lra).
  rewrite sqrt_0. replace (PI / (1 + 0)) with PI by (field; lra).
  rewrite cos_PI. reflexivity.
Qed.

Lemma divide_negative_by_zero (a : R) :
  a < 0 -> exact.true_divide (Fin a) (Fin 0) = NInf.
Proof.
  intros Ha. unfold exact.true_divide.
  destruct (Req_dec_T 0 0) as [_ | N]; [| now elim N].
  destruct (Req_dec_T a 0) as [E | _]; [lra |].
  destruct (Rlt_dec 0 a) as [P | _]; [lra | reflexivity].
Qed.

Lemma divide_ninf_by_nonneg (b : R) :
  0 <= b -> exact.true_divide NInf (Fin b) = NInf.
Proof.
  intros Hb. unfold exact.true_divide.
  destruct (Rle_dec 0 b) as [_ | N]; [reflexivity | contradiction].
Qed.

Lemma sqrt_negative (a : R) : a < 0 -> exact.sqrt (Fin a) = NaN.
Proof.
  intros Ha. unfold exact.sqrt.
  destruct (Rlt_dec a 0) as [_ | N]; [reflexivity | contradiction].
Qed.

(** Dividing by zero and by a positive count, in either order: an infinity
    of the sign of the numerator, or not-a-number for a zero numerator. *)
Lemma ratio_zero_divisor (AD C : Z) :
  (0 < C)%Z ->
  exact.true_divide (exact.true_divide (exact.of_int AD) (exact.of_int 0)) (exact.of_int C)
  = exact.true_divide (exact.true_divide (exact.of_int AD) (exact.of_int C)) (exact.of_int 0).
Proof.
  intros HC. unfold exact.of_int. apply IZR_lt in HC.
  assert (0 < / IZR C) as Hi by (apply Rinv_0_lt_compat; assumption).
  rewrite (@divide_finite (IZR AD) (IZR C)) by lra.
  destruct (Z.lt_trichotomy AD 0) as [Hn | [-> | Hp]].
  - apply IZR_lt in Hn.
    rewrite divide_negative_by_zero by assumption.
    rewrite divide_ninf_by_nonneg by lra.
    rewrite divide_negative_by_zero; [reflexivity |].
    unfold Rdiv. nra.
  - rewrite divide_zero_by_zero.
    replace (0 / IZR C) with 0 by (field; lra).
    rewrite divide_zero_by_zero. reflexivity.
  - apply IZR_lt in Hp.
    rewrite divide_positive_by_zero by assumption.
    rewrite divide_inf_by_nonneg by lra.
    rewrite divide_positive_by_zero; [reflexivity |].
    apply Rdiv_lt_0_compat; assumption.
Qed.

(** Where [AD/B/C] is a zero, an infinity or not-a-number, nothing is
    rounded and the order of the two divisions does not matter. *)
Lemma ratio_exchange (AD B C : Z) :
  (0 <= B)%Z -> (0 <= C)%Z -> (AD = 0 \/ B = 0 \/ C = 0)%Z ->
  exact.true_divide (exact.true_divide (exact.of_int AD) (exact.of_int B)) (exact.of_int C)
  = exact.true_divide (exact.true_divide (exact.of_int AD) (exact.of_int C)) (exact.of_int B).
Proof.
  intros HB HC Hz.
  destruct (Z.eq_dec B 0) as [-> | HB0], (Z.eq_dec C 0) as [-> | HC0].
  - reflexivity.
  - apply ratio_zero_divisor. lia.
  - symmetry. apply ratio_zero_divisor. lia.
  - assert (AD = 0%Z) as -> by lia.
    rewrite !ratio_finite by lia. f_equal.
    assert (0 < IZR B) by (apply IZR_lt; lia).
    assert (0 < IZR C) by (apply IZR_lt; lia).
    field. split; lra.
Qed.

End Float64.

(* ================================================================== *)
(** * The product of line 24 in 64 bits *)
(* ================================================================== *)

Section Int64.

Local Open Scope Z_scope.

(** A value of the 64-bit range is kept. *)
Lemma wrap_small (z : Z) : - 2 ^ 63 <= z < 2 ^ 63 -> int64.wrap z = z.
Proof.
  intros H. unfold int64.wrap. rewrite Z.mod_small by lia. lia.
Qed.

(** Lines 24 and 26 run on [int64.ops]. *)
Lemma estimate_int64 (A B C D : Z) :
  estimate (F := int64.ops) A B C D
  = exact.cos
      (exact.true_divide exact.pi
         (exact.add (exact.of_int 1)
            (exact.sqrt
               (exact.true_divide
                  (exact.true_divide (exact.of_int (int64.wrap (A * D)))
                                     (exact.of_int B))
                  (exact.of_int C))))).
Proof. reflexivity. Qed.

(** A product below 2^63 is the product of the integers. *)
Lemma estimate_int64_fits (A B C D : Z) :
  0 <= A * D < 2 ^ 63 ->
  estimate (F := int64.ops) A B C D = estimate (F := exact.ops) A B C D.
Proof.
  intros H. rewrite estimate_int64, estimate_exact, wrap_small by lia.
  reflexivity.
Qed.

(** A product that comes back negative: the square root is not-a-number. *)
Lemma estimate_int64_negative (A B C D : Z) :
  int64.wrap (A * D) < 0 -> 0 < B -> 0 < C ->
  estimate (F := int64.ops) A B C D = NaN.
Proof.
  intros Hn HB HC. rewrite estimate_int64, ratio_finite by assumption.
  rewrite sqrt_negative; [reflexivity |].
  apply IZR_lt in Hn, HB, HC.
  assert (0 < / IZR B)%R by (apply Rinv_0_lt_compat; assumption).
  assert (0 < / IZR C)%R by (apply Rinv_0_lt_compat; assumption).
  unfold Rdiv.
  assert (IZR (int64.wrap (A * D)) * / IZR B < 0)%R by nra.
  nra.
Qed.

(** A product that comes back as 0 over an empty discordant cell. *)
Lemma estimate_int64_zero (A B C D : Z) :
  int64.wrap (A * D) = 0 -> 0 <= B -> 0 <= C -> B = 0 \/ C = 0 ->
  estimate (F := int64.ops) A B C D = NaN.
Proof.
  intros Hz HB HC H0. rewrite estimate_int64, Hz, ratio_undefined by assumption.
  reflexivity.
Qed.

(** With an empty cell the order of the two divisions does not matter. *)
Lemma estimate_int64_exchange (A B C D : Z) :
  0 <= B -> 0 <= C -> A = 0 \/ B = 0 \/ C = 0 \/ D = 0 ->
  estimate (F := int64.ops) A B C D = estimate (F := int64.ops) A C B D.
Proof.
  intros HB HC Hz. rewrite !estimate_int64.
  rewrite (@ratio_exchange (int64.wrap (A * D)) B C); try assumption;
    [reflexivity |].
  destruct Hz as [-> | [-> | [-> | ->]]]; try tauto; left;
    rewrite ?Z.mul_0_l, ?Z.mul_0_r; reflexivity.
Qed.

End Int64.

(* ================================================================== *)
(** * Control flow of [tetrachoric_corr] *)
(* ================================================================== *)

Section ControlFlow.

Context {F : Float64}.
Variables img1 img2 : ndarray.

(** Past the three assertions the function returns lines 24 and 26 applied
    to the four counts. *)
Lemma tetrachoric_corr_returns :
  (0 < len img1)%nat -> len img1 = len img2 ->
  tetrachoric_corr (F := F) img1 img2
  = Return (estimate (count_A img1 img2) (count_B img1 img2)
                     (count_C img1 img2) (count_D img1 img2)).
Proof.
  intros Hpos Hlen. unfold tetrachoric_corr.
  assert ((0 <? len img1)%nat = true) as -> by (apply Nat.ltb_lt; assumption).
  assert ((0 <? len img2)%nat = true) as -> by (apply Nat.ltb_lt; lia).
  assert ((len img1 =? len img2)%nat = true) as -> by (apply Nat.eqb_eq; assumption).
  reflexivity.
Qed.

Lemma tetrachoric_corr_raises :
  len img1 = 0%nat \/ len img2 = 0%nat \/ len img1 <> len img2 ->
  raises (tetrachoric_corr (F := F) img1 img2).
Proof.
  intros H. unfold raises, tetrachoric_corr.
  destruct (Nat.ltb_spec 0 (len img1)) as [H1 | H1];
    [| eexists; reflexivity].
  destruct (Nat.ltb_spec 0 (len img2)) as [H2 | H2];
    [| eexists; reflexivity].
  destruct (Nat.eqb_spec (len img1) (len img2)) as [E | E];
    [lia | eexists; reflexivity].
Qed.

End ControlFlow.

(* ================================================================== *)
(** * Properties of the specification *)
(* ================================================================== *)

Section Estimator.

Local Open Scope Z_scope.

Lemma product_nonneg (img1 img2 : ndarray) :
  0 <= count_A img1 img2 * count_D img1 img2.
Proof. apply Z.mul_nonneg_nonneg; apply cell_nonneg. Qed.

(** X1.  Identical vectors that hold both a 0 and a 1, with a product A*D
    below 2^63: the ratio is infinite and the function returns 1.0. *)
Lemma identical_mixed_returns_one (img : ndarray) :
  In 0 img -> In 1 img ->
  count_A img img * count_D img img < 2 ^ 63 ->
  tetrachoric_corr (F := int64.ops) img img = Return (Fin 1).
Proof.
  intros H0 H1 Hfit.
  rewrite tetrachoric_corr_returns; [| destruct img; [contradiction | simpl; lia] | reflexivity].
  rewrite estimate_int64_fits by (split; [apply product_nonneg | assumption]).
  f_equal. unfold count_A, count_B, count_C, count_D.
  rewrite (@cell_diag_off 0 1), (@cell_diag_off 1 0) by discriminate.
  apply cell_diag_pos in H0, H1.
  apply estimate_one; lia.
Qed.

(** X2.  Identical vectors that lack a 0 or a 1 (all ones, all zeros): the ratio
    is [0/0] and the function returns not-a-number. *)
Lemma identical_constant_returns_nan (img : ndarray) :
  img <> [] -> ~ In 0 img \/ ~ In 1 img ->
  tetrachoric_corr img img = Return NaN.
Proof.
  intros Hne Hc.
  rewrite tetrachoric_corr_returns; [| destruct img; [contradiction | simpl; lia] | reflexivity].
  f_equal. unfold count_A, count_B, count_C, count_D.
  rewrite (@cell_diag_off 0 1), (@cell_diag_off 1 0) by discriminate.
  apply estimate_nan; try lia.
  destruct Hc as [Hc | Hc]; apply cell_diag_zero in Hc; rewrite Hc; lia.
Qed.

(** C1.  Identical vectors are claimed to give exactly 1.0, the all-zeros
    and all-ones vectors included, and the repository's property test asserts
    it.  On the all-zeros vector of length one A = 1 and B = C = D = 0, so
    [AD/B/C] is [0/0] and the function returns not-a-number instead. *)
Theorem identical_all_zeros_returns_nan :
  tetrachoric_corr [0] [0] = Return NaN.
Proof.
  rewrite tetrachoric_corr_returns by (simpl; lia).
  f_equal. apply estimate_nan; vm_compute; intuition congruence.
Qed.

(** C2.  With B = 0 or C = 0 and vectors neither identical nor complementary
    the function is claimed, and tested, to return not-a-number.  On
    [0,1,1] against [0,0,1] the counts are A = 1, B = 0, C = 1, D = 1: the
    ratio [1/0/1] is infinite and the function returns 1.0. *)
Theorem zero_discordant_cell_returns_one :
  count_B [0; 1; 1] [0; 0; 1] = 0
  /\ [0; 1; 1] <> [0; 0; 1]
  /\ ~ complement [0; 1; 1] [0; 0; 1]
  /\ tetrachoric_corr [0; 1; 1] [0; 0; 1] = Return (Fin 1).
Proof.
  split; [reflexivity |]. split; [discriminate |]. split; [discriminate |].
  rewrite tetrachoric_corr_returns by (simpl; lia).
  f_equal. apply estimate_one; vm_compute; intuition congruence.
Qed.

(** C3.  Whatever the float arithmetic [F], the function raises, with an
    [AssertionError], exactly when one of the vectors is empty or the
    lengths differ; in every other case, so on every valid binary input, it
    returns a float. *)
Theorem raises_iff_invalid_lengths (F : Float64) (img1 img2 : ndarray) :
  (raises (tetrachoric_corr (F := F) img1 img2)
   <-> (len img1 = 0%nat \/ len img2 = 0%nat \/ len img1 <> len img2))
  /\ ((exists x : float64, tetrachoric_corr (F := F) img1 img2 = Return x)
      <-> ((0 < len img1)%nat /\ len img1 = len img2)).
Proof.
  split; split.
  - intros [site Hr].
    destruct (Nat.eq_dec (len img1) 0) as [E1 | E1]; [tauto |].
    destruct (Nat.eq_dec (len img1) (len img2)) as [E | E]; [| tauto].
    rewrite tetrachoric_corr_returns in Hr by lia. discriminate.
  - apply tetrachoric_corr_raises.
  - intros [x Hx].
    destruct (Nat.eq_dec (len img1) 0) as [E1 | E1];
      [destruct (@tetrachoric_corr_raises F img1 img2) as [s Hs]; [tauto | congruence] |].
    destruct (Nat.eq_dec (len img1) (len img2)) as [E | E];
      [lia | destruct (@tetrachoric_corr_raises F img1 img2) as [s Hs]; [tauto | congruence]].
  - intros [Hpos Hlen]. eexists. apply tetrachoric_corr_returns; assumption.
Qed.

(** C4, as amended.  When [img2] is the complement of [img1] and [img1]
    holds both a 0 and a 1, then A = D = 0 while B and C are positive, and
    the function returns exactly -1.0. *)
Theorem complement_mixed_returns_minus_one (img1 img2 : ndarray) :
  binary img1 = true -> binary img2 = true ->
  (0 < len img1)%nat -> len img1 = len img2 ->
  complement img1 img2 ->
  In 0 img1 -> In 1 img1 ->
  tetrachoric_corr img1 img2 = Return (Fin (-1)).
Proof.
  intros Hb1 _ Hpos Hlen Hc H0 H1. unfold complement in Hc. subst img2.
  rewrite tetrachoric_corr_returns by assumption.
  f_equal. unfold count_A, count_B, count_C, count_D.
  pose proof (@cell_complement_pos 0 img1 H0) as HB.
  pose proof (@cell_complement_pos 1 img1 H1) as HC.
  change (1 - 0) with 1 in HB. change (1 - 1) with 0 in HC.
  apply estimate_minus_one; try assumption.
  rewrite (@cell_complement_agree 0) by tauto. reflexivity.
Qed.

(** C5, as amended.  With B > 0 and C > 0 and a product A*D below 2^63,
    which the 64-bit product of line 24 keeps, the function returns a finite
    number of the closed interval from -1 to 1. *)
Theorem nondegenerate_in_unit_interval (img1 img2 : ndarray) :
  binary img1 = true -> binary img2 = true ->
  (0 < len img1)%nat -> len img1 = len img2 ->
  0 < count_B img1 img2 -> 0 < count_C img1 img2 ->
  count_A img1 img2 * count_D img1 img2 < 2 ^ 63 ->
  exists r : R,
    tetrachoric_corr (F := int64.ops) img1 img2 = Return (Fin r)
    /\ (-1 <= r <= 1)%R.
Proof.
  intros _ _ Hpos Hlen HB HC Hfit.
  rewrite tetrachoric_corr_returns by assumption.
  rewrite estimate_int64_fits by (split; [apply product_nonneg | assumption]).
  rewrite estimate_regular by (assumption || apply product_nonneg).
  eexists. split; [reflexivity | apply COS_bound].
Qed.

(** C6.  With A = 0 or D = 0 and both B and C positive the ratio is 0 and
    the function returns exactly -1.0, which is not the not-a-number
    marker. *)
Theorem zero_concordant_cell_returns_minus_one (img1 img2 : ndarray) :
  binary img1 = true -> binary img2 = true ->
  (0 < len img1)%nat -> len img1 = len img2 ->
  count_A img1 img2 = 0 \/ count_D img1 img2 = 0 ->
  0 < count_B img1 img2 -> 0 < count_C img1 img2 ->
  tetrachoric_corr img1 img2 = Return (Fin (-1))
  /\ ~ returns_nan (tetrachoric_corr img1 img2).
Proof.
  intros _ _ Hpos Hlen HAD HB HC.
  assert (tetrachoric_corr img1 img2 = Return (Fin (-1))) as E.
  { rewrite tetrachoric_corr_returns by assumption.
    f_equal. apply estimate_minus_one; try assumption.
    destruct HAD as [-> | ->]; lia. }
  split; [exact E |].
  rewrite E. intros [x [Hx Hn]]. injection Hx as <-. discriminate.
Qed.

(** C7, as amended.  Whatever the arithmetic [F], the returned value is
    [cos(pi / (1 + sqrt(((A*D) / B) / C)))] evaluated in [F], operation by
    operation and in this order, on the numbers A, B, C and D of positions
    that hold (0,0), (0,1), (1,0) and (1,1): the product A*D is divided by
    B, and the quotient by C. *)
Theorem divides_by_B_then_by_C (F : Float64) (img1 img2 : ndarray) :
  (0 < len img1)%nat -> len img1 = len img2 ->
  tetrachoric_corr (F := F) img1 img2
  = Return (numpy.cos (numpy.pi / (of_int 1 + numpy.sqrt
      (of_int (numpy.multiply (positions 0 0 img1 img2)
                              (positions 1 1 img1 img2))
       / of_int (positions 0 1 img1 img2)
       / of_int (positions 1 0 img1 img2))))%f64).
Proof.
  intros Hpos Hlen.
  rewrite tetrachoric_corr_returns by assumption.
  unfold count_A, count_B, count_C, count_D.
  rewrite !cell_positions. reflexivity.
Qed.

(** C8.  For binary vectors of one length n the four counts are
    non-negative and add up to n. *)
Theorem counts_partition_positions (img1 img2 : ndarray) :
  binary img1 = true -> binary img2 = true -> len img1 = len img2 ->
  0 <= count_A img1 img2 /\ 0 <= count_B img1 img2
  /\ 0 <= count_C img1 img2 /\ 0 <= count_D img1 img2
  /\ count_A img1 img2 + count_B img1 img2
     + count_C img1 img2 + count_D img1 img2 = Z.of_nat (len img1).
Proof.
  intros Hb1 Hb2 Hlen.
  repeat (split; [apply cell_nonneg |]).
  apply cells_partition; assumption.
Qed.

(** C9, as amended.  With a product A*D below 2^63, which the 64-bit
    product of line 24 keeps, the function returns not-a-number exactly when
    A*D = 0 and one of B, C is 0; when one of B, C is 0 while A and D are
    positive, the ratio is infinite and the function returns 1.0. *)
Theorem nan_iff_zero_product_and_zero_discordant (img1 img2 : ndarray) :
  binary img1 = true -> binary img2 = true ->
  (0 < len img1)%nat -> len img1 = len img2 ->
  count_A img1 img2 * count_D img1 img2 < 2 ^ 63 ->
  (returns_nan (tetrachoric_corr (F := int64.ops) img1 img2)
   <-> count_A img1 img2 * count_D img1 img2 = 0
       /\ (count_B img1 img2 = 0 \/ count_C img1 img2 = 0))
  /\ (count_B img1 img2 = 0 \/ count_C img1 img2 = 0 ->
      0 < count_A img1 img2 -> 0 < count_D img1 img2 ->
      tetrachoric_corr (F := int64.ops) img1 img2 = Return (Fin 1)).
Proof.
  intros _ _ Hpos Hlen Hfit.
  rewrite tetrachoric_corr_returns by assumption.
  pose proof (product_nonneg img1 img2) as HAD.
  rewrite estimate_int64_fits by (split; assumption).
  pose proof (cell_nonneg 0 1 img1 img2) as HB.
  pose proof (cell_nonneg 1 0 img1 img2) as HC.
  fold (count_B img1 img2) in HB. fold (count_C img1 img2) in HC.
  split; [split |].
  - intros [x [Hx Hn]].
    assert (x = estimate (count_A img1 img2) (count_B img1 img2)
                         (count_C img1 img2) (count_D img1 img2)) as ->
      by congruence.
    destruct (Z_lt_le_dec 0 (count_B img1 img2)) as [HB' | HB'];
      [destruct (Z_lt_le_dec 0 (count_C img1 img2)) as [HC' | HC'] |].
    + rewrite estimate_regular in Hn by assumption. discriminate.
    + destruct (Z.eq_dec (count_A img1 img2 * count_D img1 img2) 0) as [E | E];
        [split; [assumption | lia] |].
      rewrite estimate_one in Hn by lia. discriminate.
    + destruct (Z.eq_dec (count_A img1 img2 * count_D img1 img2) 0) as [E | E];
        [split; [assumption | lia] |].
      rewrite estimate_one in Hn by lia. discriminate.
  - intros [E Hz]. eexists. split; [reflexivity |].
    rewrite estimate_nan by assumption. reflexivity.
  - intros Hz HA HD. f_equal. apply estimate_one; try assumption.
    apply Z.mul_pos_pos; assumption.
Qed.

(** C10, as amended.  Exchanging the two arguments keeps A and D and
    exchanges B with C, so the exchanged call divides A*D by C first and by
    B second.  The two calls return the same value bit for bit, whatever the
    arithmetic [F], when B = C; and they return the same value when one of
    the four counts is 0, where the quotient is a zero, an infinity or
    not-a-number and nothing is rounded. *)
Theorem symmetric_when_division_order_is_immaterial (img1 img2 : ndarray) :
  binary img1 = true -> binary img2 = true ->
  (0 < len img1)%nat -> len img1 = len img2 ->
  (count_A img2 img1 = count_A img1 img2
   /\ count_B img2 img1 = count_C img1 img2
   /\ count_C img2 img1 = count_B img1 img2
   /\ count_D img2 img1 = count_D img1 img2)
  /\ (forall F : Float64,
        tetrachoric_corr (F := F) img2 img1
        = Return (estimate (F := F) (count_A img1 img2) (count_C img1 img2)
                                    (count_B img1 img2) (count_D img1 img2)))
  /\ (forall F : Float64,
        count_B img1 img2 = count_C img1 img2 ->
        tetrachoric_corr (F := F) img1 img2
        = tetrachoric_corr (F := F) img2 img1)
  /\ (count_A img1 img2 = 0 \/ count_B img1 img2 = 0
      \/ count_C img1 img2 = 0 \/ count_D img1 img2 = 0 ->
      tetrachoric_corr (F := int64.ops) img1 img2
      = tetrachoric_corr (F := int64.ops) img2 img1).
Proof.
  intros _ _ Hpos Hlen.
  assert (count_A img2 img1 = count_A img1 img2
          /\ count_B img2 img1 = count_C img1 img2
          /\ count_C img2 img1 = count_B img1 img2
          /\ count_D img2 img1 = count_D img1 img2) as Hcounts.
  { unfold count_A, count_B, count_C, count_D.
    repeat split; apply cell_swap. }
  destruct Hcounts as (EA & EB & EC & ED).
  assert (forall F : Float64,
            tetrachoric_corr (F := F) img2 img1
            = Return (estimate (F := F) (count_A img1 img2) (count_C img1 img2)
                                        (count_B img1 img2) (count_D img1 img2)))
    as Hswap.
  { intros F. rewrite tetrachoric_corr_returns by lia.
    rewrite EA, EB, EC, ED. reflexivity. }
  split; [tauto |]. split; [exact Hswap |]. split.
  - intros F E. rewrite Hswap, tetrachoric_corr_returns by assumption.
    rewrite E. reflexivity.
  - intros Hz. rewrite Hswap, tetrachoric_corr_returns by assumption.
    f_equal. apply estimate_int64_exchange; try apply cell_nonneg. exact Hz.
Qed.

End Estimator.

(* ================================================================== *)
(** * The properties on the scenarios of the test suite *)
(* ================================================================== *)

Section Scenarios.

Local Open Scope Z_scope.

(** Closes a side condition on concrete vectors by evaluation. *)
Ltac evaluate := first [reflexivity | simpl; lia].

(** C3 on the two precondition failures of the specification and on a
    valid pair. *)
Lemma raises_iff_invalid_lengths_witness :
  raises (tetrachoric_corr (F := exact.ops) [0; 0; 1] [0; 1; 0; 1])
  /\ raises (tetrachoric_corr (F := exact.ops) [] [])
  /\ exists x : exact.float,
       tetrachoric_corr [0; 0; 1; 1] [0; 1; 0; 1] = Return x.
Proof.
  split; [| split].
  - apply (proj1 (raises_iff_invalid_lengths exact.ops [0; 0; 1] [0; 1; 0; 1])).
    right; right. simpl. lia.
  - apply (proj1 (raises_iff_invalid_lengths exact.ops [] [])).
    left. reflexivity.
  - apply (proj2 (raises_iff_invalid_lengths exact.ops [0; 0; 1; 1] [0; 1; 0; 1])).
    split; evaluate.
Defined.

(** C4 as stated fails on the complementary pair [0] and [1]: there
    A = D = 0 and C = 0, the ratio is [0/1/0], and the function returns
    not-a-number. *)
Lemma complement_constant_returns_nan :
  binary [0] = true /\ binary [1] = true
  /\ (0 < len [0])%nat /\ len [0] = len [1]
  /\ complement [0] [1]
  /\ tetrachoric_corr [0] [1] = Return NaN
  /\ tetrachoric_corr [0] [1] <> Return (Fin (-1)).
Proof.
  assert (tetrachoric_corr [0] [1] = Return NaN) as E.
  { rewrite tetrachoric_corr_returns by evaluate.
    f_equal. apply estimate_nan; vm_compute; intuition congruence. }
  repeat (split; [evaluate |]).
  split; [exact E | rewrite E; discriminate].
Qed.

(** Scenario 2 of the specification. *)
Lemma identical_mixed_returns_one_witness :
  tetrachoric_corr (F := int64.ops) [0; 0; 1; 1] [0; 0; 1; 1] = Return (Fin 1).
Proof.
  apply (@identical_mixed_returns_one [0; 0; 1; 1]); evaluate.
Defined.

Lemma identical_constant_returns_nan_witness :
  tetrachoric_corr [1; 1] [1; 1] = Return NaN.
Proof.
  apply (@identical_constant_returns_nan [1; 1]); [discriminate |].
  left. simpl. lia.
Defined.

(** Scenario 3 of the specification. *)
Lemma complement_mixed_returns_minus_one_witness :
  tetrachoric_corr [0; 0; 1; 1] [1; 1; 0; 0] = Return (Fin (-1)).
Proof.
  apply (@complement_mixed_returns_minus_one [0; 0; 1; 1] [1; 1; 0; 0]);
    evaluate.
Defined.

(** Scenario 1 of the specification: the returned value lies in the
    interval. *)
Lemma nondegenerate_in_unit_interval_witness :
  exists r : R,
    tetrachoric_corr (F := int64.ops) [0; 0; 1; 1] [0; 1; 0; 1] = Return (Fin r)
    /\ (-1 <= r <= 1)%R.
Proof.
  apply (@nondegenerate_in_unit_interval [0; 0; 1; 1] [0; 1; 0; 1]);
    evaluate.
Defined.

(** C5 as stated fails on long vectors.  On 3037000500 pairs (0,0), one
    pair (0,1), one pair (1,0) and 3037000500 pairs (1,1) the product A*D is
    9223372037000250000, above 2^63; line 24 keeps its low 64 bits, a
    negative number, the square root of the negative ratio is not-a-number
    and so is the returned value, with B = C = 1. *)
Lemma overflowing_product_returns_nan :
  binary (zeros_ones 3037000500 [0; 1]) = true
  /\ binary (zeros_ones 3037000500 [1; 0]) = true
  /\ (0 < len (zeros_ones 3037000500 [0; 1]%Z))%nat
  /\ len (zeros_ones 3037000500 [0; 1]) = len (zeros_ones 3037000500 [1; 0])
  /\ count_B (zeros_ones 3037000500 [0; 1]) (zeros_ones 3037000500 [1; 0]) = 1
  /\ count_C (zeros_ones 3037000500 [0; 1]) (zeros_ones 3037000500 [1; 0]) = 1
  /\ tetrachoric_corr (F := int64.ops)
       (zeros_ones 3037000500 [0; 1]) (zeros_ones 3037000500 [1; 0])
     = Return NaN.
Proof.
  set (v1 := zeros_ones 3037000500 [0; 1]).
  set (v2 := zeros_ones 3037000500 [1; 0]).
  assert (forall a b : Z,
            cell a b v1 v2
            = Z.b2z ((0 =? a) && (0 =? b)) * 3037000500 + cell a b [0; 1] [1; 0]
              + Z.b2z ((1 =? a) && (1 =? b)) * 3037000500) as Hcell.
  { intros a b. apply cell_zeros_ones; [lia | reflexivity]. }
  assert (count_A v1 v2 = 3037000500) as HA by (apply Hcell).
  assert (count_B v1 v2 = 1) as HB by (apply Hcell).
  assert (count_C v1 v2 = 1) as HC by (apply Hcell).
  assert (count_D v1 v2 = 3037000500) as HD by (apply Hcell).
  assert (0 < len v1)%nat as Hpos.
  { unfold v1. rewrite len_zeros_ones. cbn [len length]. lia. }
  assert (len v1 = len v2) as Hlen.
  { unfold v1, v2. rewrite !len_zeros_ones. reflexivity. }
  split; [unfold v1; rewrite binary_zeros_ones; reflexivity |].
  split; [unfold v2; rewrite binary_zeros_ones; reflexivity |].
  split; [exact Hpos |]. split; [exact Hlen |].
  split; [exact HB |]. split; [exact HC |].
  rewrite tetrachoric_corr_returns by assumption.
  f_equal. rewrite HA, HB, HC, HD.
  apply estimate_int64_negative; reflexivity.
Qed.

Lemma zero_concordant_cell_returns_minus_one_witness :
  tetrachoric_corr [0; 1; 1] [1; 0; 1] = Return (Fin (-1))
  /\ ~ returns_nan (tetrachoric_corr [0; 1; 1] [1; 0; 1]).
Proof.
  apply (@zero_concordant_cell_returns_minus_one [0; 1; 1] [1; 0; 1]);
    try evaluate.
  left. reflexivity.
Defined.

(** C7 on a pair with A = 2, B = 5, C = 7 and D = 4, in binary64: the
    quotient that reaches the square root is [8/5/7]. *)
Lemma divides_by_B_then_by_C_witness :
  tetrachoric_corr (F := binary64.ops binary64.cos_floor)
    [0; 0; 0; 0; 0; 0; 0; 1; 1; 1; 1; 1; 1; 1; 1; 1; 1; 1]
    [0; 0; 1; 1; 1; 1; 1; 0; 0; 0; 0; 0; 0; 0; 1; 1; 1; 1]
  = Return
      (binary64.cos_floor
         (binary64.true_divide binary64.pi
            (binary64.add (binary64.of_int 1)
               (binary64.sqrt
                  (binary64.true_divide
                     (binary64.true_divide (binary64.of_int 8)
                                           (binary64.of_int 5))
                     (binary64.of_int 7)))))).
Proof.
  apply (@divides_by_B_then_by_C (binary64.ops binary64.cos_floor)
           [0; 0; 0; 0; 0; 0; 0; 1; 1; 1; 1; 1; 1; 1; 1; 1; 1; 1]
           [0; 0; 1; 1; 1; 1; 1; 0; 0; 0; 0; 0; 0; 0; 1; 1; 1; 1]);
    evaluate.
Defined.

Lemma counts_partition_positions_witness :
  (count_A [0; 0; 1; 1] [0; 1; 1; 1] + count_B [0; 0; 1; 1] [0; 1; 1; 1]
   + count_C [0; 0; 1; 1] [0; 1; 1; 1] + count_D [0; 0; 1; 1] [0; 1; 1; 1]
   = 4).
Proof.
  apply (@counts_partition_positions [0; 0; 1; 1] [0; 1; 1; 1]);
    evaluate.
Defined.

(** Scenario 4 of the specification returns not-a-number, and the pair of
    C2 returns 1.0. *)
Lemma nan_iff_zero_product_and_zero_discordant_witness :
  returns_nan (tetrachoric_corr (F := int64.ops) [0; 0; 1; 1] [1; 1; 1; 1])
  /\ tetrachoric_corr (F := int64.ops) [0; 1; 1] [0; 0; 1] = Return (Fin 1).
Proof.
  split.
  - apply (proj1 (@nan_iff_zero_product_and_zero_discordant
                    [0; 0; 1; 1] [1; 1; 1; 1]
                    eq_refl eq_refl ltac:(evaluate) eq_refl eq_refl)).
    split; [reflexivity | right; reflexivity].
  - apply (proj2 (@nan_iff_zero_product_and_zero_discordant
                    [0; 1; 1] [0; 0; 1]
                    eq_refl eq_refl ltac:(evaluate) eq_refl eq_refl)); try evaluate.
    left. reflexivity.
Defined.

(** C9 as stated fails on long vectors.  On a vector of 2^32 zeros followed
    by 2^32 ones, paired with itself, A = D = 2^32 and B = C = 0; the
    product A*D is 2^64, whose low 64 bits are 0, so that line 26 divides 0
    by 0: the function returns not-a-number though A*D is not 0, where the
    claim has it return 1.0. *)
Lemma wrapped_product_returns_nan :
  binary (zeros_ones 4294967296 []) = true
  /\ (0 < len (zeros_ones 4294967296 []))%nat
  /\ count_A (zeros_ones 4294967296 []) (zeros_ones 4294967296 []) = 4294967296
  /\ count_B (zeros_ones 4294967296 []) (zeros_ones 4294967296 []) = 0
  /\ count_C (zeros_ones 4294967296 []) (zeros_ones 4294967296 []) = 0
  /\ count_D (zeros_ones 4294967296 []) (zeros_ones 4294967296 []) = 4294967296
  /\ tetrachoric_corr (F := int64.ops)
       (zeros_ones 4294967296 []) (zeros_ones 4294967296 [])
     = Return NaN.
Proof.
  set (v := zeros_ones 4294967296 []).
  assert (forall a b : Z,
            cell a b v v
            = Z.b2z ((0 =? a) && (0 =? b)) * 4294967296 + cell a b [] []
              + Z.b2z ((1 =? a) && (1 =? b)) * 4294967296) as Hcell.
  { intros a b. apply cell_zeros_ones; [lia | reflexivity]. }
  assert (count_A v v = 4294967296) as HA by (apply Hcell).
  assert (count_B v v = 0) as HB by (apply Hcell).
  assert (count_C v v = 0) as HC by (apply Hcell).
  assert (count_D v v = 4294967296) as HD by (apply Hcell).
  assert (0 < len v)%nat as Hpos.
  { unfold v. rewrite len_zeros_ones. lia. }
  split; [unfold v; rewrite binary_zeros_ones; reflexivity |].
  split; [exact Hpos |].
  split; [exact HA |]. split; [exact HB |].
  split; [exact HC |]. split; [exact HD |].
  rewrite tetrachoric_corr_returns by (assumption || reflexivity).
  f_equal. rewrite HA, HB, HC, HD.
  apply estimate_int64_zero; first [reflexivity | lia].
Qed.

(** C10 on a pair with B = C = 1, in binary64, and on the pair of C2, where
    B = 0. *)
Lemma symmetric_when_division_order_is_immaterial_witness :
  tetrachoric_corr (F := binary64.ops binary64.cos_floor)
    [0; 0; 1; 1] [0; 1; 0; 1]
  = tetrachoric_corr (F := binary64.ops binary64.cos_floor)
      [0; 1; 0; 1] [0; 0; 1; 1]
  /\ tetrachoric_corr (F := int64.ops) [0; 1; 1] [0; 0; 1]
     = tetrachoric_corr (F := int64.ops) [0; 0; 1] [0; 1; 1].
Proof.
  split.
  - apply (proj1 (proj2 (proj2 (@symmetric_when_division_order_is_immaterial
             [0; 0; 1; 1] [0; 1; 0; 1]
             eq_refl eq_refl ltac:(evaluate) eq_refl)))).
    reflexivity.
  - apply (proj2 (proj2 (proj2 (@symmetric_when_division_order_is_immaterial
             [0; 1; 1] [0; 0; 1]
             eq_refl eq_refl ltac:(evaluate) eq_refl)))).
    right. left. reflexivity.
Defined.

End Scenarios.

(* ================================================================== *)
(** * Rounding: the function in binary64 *)
(* ================================================================== *)

Section Binary64.

Local Open Scope R_scope.

(** The first four terms of the sine series bound the sine from below. *)
Lemma sin_lower (a : R) :
  0 <= a -> a <= PI ->
  a - a ^ 3 / 6 + a ^ 5 / 120 - a ^ 7 / 5040 <= sin a.
Proof.
  intros H0 H1. destruct (SIN a H0 H1) as [H _].
  unfold sin_lb, sin_approx, sin_term in H.
  cbn [sum_f_R0 Nat.mul Nat.add] in H.
  replace (INR (fact 1)) with 1 in H by (rewrite INR_IZR_INZ; reflexivity).
  replace (INR (fact 3)) with 6 in H by (rewrite INR_IZR_INZ; reflexivity).
  replace (INR (fact 5)) with 120 in H by (rewrite INR_IZR_INZ; reflexivity).
  replace (INR (fact 7)) with 5040 in H by (rewrite INR_IZR_INZ; reflexivity).
  lra.
Qed.

Lemma PI_above_3 : 3 < PI.
Proof. pose proof PI2_3_2. lra. Qed.

(** Two neighbouring doubles near 2.1254, one unit in the last place
    apart: their cosines are more than 2^-52 apart. *)
Lemma cosine_gap :
  / 2 ^ 52 + / 2 ^ 54
  < Rtrigo_def.cos (IZR 4786062311651330 / 2 ^ 51)
    - Rtrigo_def.cos (IZR 4786062311651331 / 2 ^ 51).
Proof.
  set (r1 := IZR 4786062311651330 / 2 ^ 51).
  set (r2 := IZR 4786062311651331 / 2 ^ 51).
  rewrite form2.
  replace ((r1 - r2) / 2) with (- / 2 ^ 52) by (unfold r1, r2; field).
  rewrite sin_neg.
  set (h := / 2 ^ 52). set (m := (r1 + r2) / 2).
  assert (0 < h) as Hh by (unfold h; apply Rinv_0_lt_compat, pow_lt; lra).
  assert (h <= / 4) as Hh1.
  { unfold h. apply Rinv_le_contravar; [lra |].
    replace 4 with (2 ^ 2) by ring. apply Rle_pow; [lra | lia]. }
  assert (17 / 8 <= m <= 213 / 100) as Hm.
  { unfold m, r1, r2. split;
      (apply Rmult_le_reg_r with (2 ^ 52); [apply pow_lt; lra |]);
      field_simplify; lra. }
  pose proof PI_above_3 as Hpi.
  assert (4 / 5 <= sin m) as Hsm.
  { pose proof (@sin_lower m ltac:(lra) ltac:(lra)) as L.
    assert (m ^ 3 <= (213 / 100) ^ 3) by (apply pow_incr; lra).
    assert ((17 / 8) ^ 5 <= m ^ 5) by (apply pow_incr; lra).
    assert (m ^ 7 <= (213 / 100) ^ 7) by (apply pow_incr; lra).
    lra. }
  assert (9 / 10 * h <= sin h) as Hsh.
  { pose proof (@sin_lower h ltac:(lra) ltac:(lra)) as L.
    assert (0 <= h ^ 5) by (apply pow_le; lra).
    assert (h ^ 3 <= h * (/ 4) ^ 2).
    { replace (h ^ 3) with (h * h ^ 2) by ring.
      apply Rmult_le_compat_l; [lra |]. apply pow_incr; lra. }
    assert (h ^ 7 <= h * (/ 4) ^ 6).
    { replace (h ^ 7) with (h * h ^ 6) by ring.
      apply Rmult_le_compat_l; [lra |]. apply pow_incr; lra. }
    lra. }
  replace (/ 2 ^ 54) with (h / 4) by (unfold h; field).
  assert (9 / 10 * h * (4 / 5) <= sin h * sin m)
    by (apply Rmult_le_compat; lra).
  lra.
Qed.

Lemma to_R_grid (k : Z) : binary64.to_R (binary64.grid k) = IZR k / 2 ^ 53.
Proof.
  destruct k as [| p | p]; unfold binary64.grid, binary64.to_R.
  - lra.
  - change (powerRZ 2 (-53)) with (/ 2 ^ 53). lra.
  - change (powerRZ 2 (-53)) with (/ 2 ^ 53).
    change (IZR (Z.neg p)) with (- IZR (Z.pos p)). lra.
Qed.

(** The accuracy asked of a cosine routine can be met. *)
Lemma cos_floor_accurate : binary64.accurate binary64.cos_floor.
Proof.
  intros x _. unfold binary64.cos_floor.
  set (c := Rtrigo_def.cos (binary64.to_R x)).
  split; [destruct (Int_part (c * 2 ^ 53)); reflexivity |].
  rewrite to_R_grid.
  destruct (base_Int_part (c * 2 ^ 53)) as [Hle Hgt].
  assert (0 < 2 ^ 53) as Hp by (apply pow_lt; lra).
  assert (0 < / 2 ^ 53) as Hi by (apply Rinv_0_lt_compat; assumption).
  replace (IZR (Int_part (c * 2 ^ 53)) / 2 ^ 53 - c)
    with ((IZR (Int_part (c * 2 ^ 53)) - c * 2 ^ 53) * / 2 ^ 53)
    by (field; lra).
  apply Rabs_le. split.
  - replace (- / 2 ^ 53) with (-1 * / 2 ^ 53) by ring.
    apply Rmult_le_compat_r; lra.
  - apply Rle_trans with (0 * / 2 ^ 53); [| lra].
    apply Rmult_le_compat_r; lra.
Qed.

(** The argument that reaches the cosine on the pairs of C1, C2 and C4 and
    on scenarios 2 to 4 of the specification, bit for bit: not-a-number,
    [+0.0] and [pi], as in [exact]. *)
Lemma binary64_cosine_arguments (cos64 : binary64.float -> binary64.float) :
  tetrachoric_corr (F := binary64.ops cos64) [0%Z] [0%Z]
  = Return (cos64 S754_nan)
  /\ tetrachoric_corr (F := binary64.ops cos64) [0; 1; 1]%Z [0; 0; 1]%Z
     = Return (cos64 (S754_zero false))
  /\ tetrachoric_corr (F := binary64.ops cos64) [0%Z] [1%Z]
     = Return (cos64 S754_nan)
  /\ tetrachoric_corr (F := binary64.ops cos64) [0; 0; 1; 1]%Z [0; 0; 1; 1]%Z
     = Return (cos64 (S754_zero false))
  /\ tetrachoric_corr (F := binary64.ops cos64) [0; 0; 1; 1]%Z [1; 1; 0; 0]%Z
     = Return (cos64 binary64.pi)
  /\ tetrachoric_corr (F := binary64.ops cos64) [0; 0; 1; 1]%Z [1; 1; 1; 1]%Z
     = Return (cos64 S754_nan).
Proof. repeat split; vm_compute; reflexivity. Qed.

(** An accurate cosine routine tells the two neighbouring doubles of
    [cosine_gap] apart. *)
Lemma accurate_cosine_separates (cos64 : binary64.float -> binary64.float) :
  binary64.accurate cos64 ->
  cos64 (S754_finite false 4786062311651330 (-51))
  <> cos64 (S754_finite false 4786062311651331 (-51)).
Proof.
  intros Hacc Hc.
  set (x1 := S754_finite false 4786062311651330 (-51)) in *.
  set (x2 := S754_finite false 4786062311651331 (-51)) in *.
  destruct (Hacc x1 eq_refl) as [_ H1].
  destruct (Hacc x2 eq_refl) as [_ H2].
  rewrite Hc in H1.
  assert (binary64.to_R x1 = IZR 4786062311651330 / 2 ^ 51) as E1.
  { unfold x1, binary64.to_R.
    change (powerRZ 2 (-51)) with (/ 2 ^ 51). lra. }
  assert (binary64.to_R x2 = IZR 4786062311651331 / 2 ^ 51) as E2.
  { unfold x2, binary64.to_R.
    change (powerRZ 2 (-51)) with (/ 2 ^ 51). lra. }
  rewrite E1 in H1. rewrite E2 in H2.
  pose proof cosine_gap as G.
  pose proof (Rle_abs (binary64.to_R (cos64 x2)
                       - Rtrigo_def.cos (IZR 4786062311651331 / 2 ^ 51))) as L2.
  rewrite Rabs_minus_sym in H1.
  pose proof (Rle_abs (Rtrigo_def.cos (IZR 4786062311651330 / 2 ^ 51)
                       - binary64.to_R (cos64 x2))) as L1.
  replace (/ 2 ^ 52) with (2 * / 2 ^ 53) in G by (simpl; field).
  assert (0 < / 2 ^ 54) by (apply Rinv_0_lt_compat, pow_lt; lra).
  lra.
Qed.

(** C7 as stated fails bit for bit.  On a pair with A = 2, B = 5, C = 7 and
    D = 4 the function forms [8/5/7] and the reference expression [8/35];
    the two quotients round to different doubles, the arguments that reach
    the cosine are one unit in the last place apart, and every accurate
    cosine routine returns different values for them. *)
Lemma binary64_differs_from_reference :
  binary [0; 0; 0; 0; 0; 0; 0; 1; 1; 1; 1; 1; 1; 1; 1; 1; 1; 1]%Z = true
  /\ binary [0; 0; 1; 1; 1; 1; 1; 0; 0; 0; 0; 0; 0; 0; 1; 1; 1; 1]%Z = true
  /\ (0 < len [0; 0; 0; 0; 0; 0; 0; 1; 1; 1; 1; 1; 1; 1; 1; 1; 1; 1]%Z)%nat
  /\ len [0; 0; 0; 0; 0; 0; 0; 1; 1; 1; 1; 1; 1; 1; 1; 1; 1; 1]%Z
     = len [0; 0; 1; 1; 1; 1; 1; 0; 0; 0; 0; 0; 0; 0; 1; 1; 1; 1]%Z
  /\ count_B [0; 0; 0; 0; 0; 0; 0; 1; 1; 1; 1; 1; 1; 1; 1; 1; 1; 1]%Z
             [0; 0; 1; 1; 1; 1; 1; 0; 0; 0; 0; 0; 0; 0; 1; 1; 1; 1]%Z = 5%Z
  /\ count_C [0; 0; 0; 0; 0; 0; 0; 1; 1; 1; 1; 1; 1; 1; 1; 1; 1; 1]%Z
             [0; 0; 1; 1; 1; 1; 1; 0; 0; 0; 0; 0; 0; 0; 1; 1; 1; 1]%Z = 7%Z
  /\ forall cos64 : binary64.float -> binary64.float,
       binary64.accurate cos64 ->
       tetrachoric_corr (F := binary64.ops cos64)
         [0; 0; 0; 0; 0; 0; 0; 1; 1; 1; 1; 1; 1; 1; 1; 1; 1; 1]%Z
         [0; 0; 1; 1; 1; 1; 1; 0; 0; 0; 0; 0; 0; 0; 1; 1; 1; 1]%Z
       <> Return
            (reference_expression (F := binary64.ops cos64)
               (count_A [0; 0; 0; 0; 0; 0; 0; 1; 1; 1; 1; 1; 1; 1; 1; 1; 1; 1]%Z
                        [0; 0; 1; 1; 1; 1; 1; 0; 0; 0; 0; 0; 0; 0; 1; 1; 1; 1]%Z)
               (count_B [0; 0; 0; 0; 0; 0; 0; 1; 1; 1; 1; 1; 1; 1; 1; 1; 1; 1]%Z
                        [0; 0; 1; 1; 1; 1; 1; 0; 0; 0; 0; 0; 0; 0; 1; 1; 1; 1]%Z)
               (count_C [0; 0; 0; 0; 0; 0; 0; 1; 1; 1; 1; 1; 1; 1; 1; 1; 1; 1]%Z
                        [0; 0; 1; 1; 1; 1; 1; 0; 0; 0; 0; 0; 0; 0; 1; 1; 1; 1]%Z)
               (count_D [0; 0; 0; 0; 0; 0; 0; 1; 1; 1; 1; 1; 1; 1; 1; 1; 1; 1]%Z
                        [0; 0; 1; 1; 1; 1; 1; 0; 0; 0; 0; 0; 0; 0; 1; 1; 1; 1]%Z)).
Proof.
  repeat (split; [first [reflexivity | simpl; lia] |]).
  intros cos64 Hacc Heq.
  apply (accurate_cosine_separates Hacc).
  vm_compute in Heq. injection Heq as Heq. exact Heq.
Qed.

(** C10 as stated fails bit for bit.  On a pair with A = 2, B = 5, C = 7 and
    D = 4 the quotients [8/5/7] and [8/7/5] round to different doubles, the
    arguments that reach the cosine are one unit in the last place apart,
    and every accurate cosine routine returns different values for them:
    the two calls differ in the last bits. *)
Lemma binary64_results_differ :
  binary [0; 0; 0; 0; 0; 0; 0; 1; 1; 1; 1; 1; 1; 1; 1; 1; 1; 1]%Z = true
  /\ binary [0; 0; 1; 1; 1; 1; 1; 0; 0; 0; 0; 0; 0; 0; 1; 1; 1; 1]%Z = true
  /\ (0 < len [0; 0; 0; 0; 0; 0; 0; 1; 1; 1; 1; 1; 1; 1; 1; 1; 1; 1]%Z)%nat
  /\ len [0; 0; 0; 0; 0; 0; 0; 1; 1; 1; 1; 1; 1; 1; 1; 1; 1; 1]%Z
     = len [0; 0; 1; 1; 1; 1; 1; 0; 0; 0; 0; 0; 0; 0; 1; 1; 1; 1]%Z
  /\ forall cos64 : binary64.float -> binary64.float,
       binary64.accurate cos64 ->
       tetrachoric_corr (F := binary64.ops cos64)
         [0; 0; 0; 0; 0; 0; 0; 1; 1; 1; 1; 1; 1; 1; 1; 1; 1; 1]%Z
         [0; 0; 1; 1; 1; 1; 1; 0; 0; 0; 0; 0; 0; 0; 1; 1; 1; 1]%Z
       <> tetrachoric_corr (F := binary64.ops cos64)
            [0; 0; 1; 1; 1; 1; 1; 0; 0; 0; 0; 0; 0; 0; 1; 1; 1; 1]%Z
            [0; 0; 0; 0; 0; 0; 0; 1; 1; 1; 1; 1; 1; 1; 1; 1; 1; 1]%Z.
Proof.
  repeat (split; [first [reflexivity | simpl; lia] |]).
  intros cos64 Hacc Heq.
  apply (accurate_cosine_separates Hacc).
  vm_compute in Heq. injection Heq as Heq. exact Heq.
Qed.

End Binary64.

(* ================================================================== *)
(** * The counts as a multiset of paired observations *)
(* ================================================================== *)

Section PairedObservations.

Local Open Scope Z_scope.

#[local] Arguments sum : simpl never.
#[local] Arguments cell : simpl never.
#[local] Arguments pair_count : simpl never.

Lemma pair_count_nil (a b : Z) : pair_count a b [] = 0.
Proof. reflexivity. Qed.

Lemma pair_count_cons (a b : Z) (p : Z * Z) (ps : list (Z * Z)) :
  pair_count a b (p :: ps)
  = Z.b2z ((fst p =? a) && (snd p =? b)) + pair_count a b ps.
Proof. unfold pair_count. cbn [map]. apply sum_cons. Qed.

(** A cell counts pairs of the two vectors zipped together. *)
Lemma cell_pair_count (a b : Z) (img1 img2 : ndarray) :
  cell a b img1 img2 = pair_count a b (combine img1 img2).
Proof.
  revert img2. induction img1 as [| x img1 IH]; intros [| y img2];
    try reflexivity.
  cbn [combine]. rewrite cell_cons, pair_count_cons, IH. reflexivity.
Qed.

Lemma pair_count_permutation (a b : Z) (ps qs : list (Z * Z)) :
  Permutation ps qs -> pair_count a b ps = pair_count a b qs.
Proof.
  induction 1 as [| p ps qs _ IH | p q ps | ps qs rs _ IH1 _ IH2].
  - reflexivity.
  - rewrite !pair_count_cons, IH. reflexivity.
  - rewrite !pair_count_cons. lia.
  - congruence.
Qed.

Lemma pair_count_filter_coded (a b : Z) (ps : list (Z * Z)) :
  (a = 0 \/ a = 1) -> (b = 0 \/ b = 1) ->
  pair_count a b (filter coded ps) = pair_count a b ps.
Proof.
  intros Ha Hb. induction ps as [| [x y] ps IH]; [reflexivity |].
  cbn [filter]. rewrite pair_count_cons, <- IH.
  destruct (coded (x, y)) eqn:E.
  - rewrite pair_count_cons. reflexivity.
  - replace ((fst (x, y) =? a) && (snd (x, y) =? b)) with false;
      [reflexivity |].
    symmetry. apply not_true_is_false. intros H.
    apply andb_true_iff in H as [Hx Hy].
    apply Z.eqb_eq in Hx, Hy. cbn [fst snd] in Hx, Hy. subst x y.
    unfold coded in E. cbn [fst snd] in E.
    destruct Ha as [-> | ->], Hb as [-> | ->]; discriminate.
Qed.

Lemma combine_fst_snd (ps : list (Z * Z)) :
  combine (map fst ps) (map snd ps) = ps.
Proof.
  induction ps as [| [x y] ps IH]; [reflexivity |].
  cbn [map combine fst snd]. rewrite IH. reflexivity.
Qed.

(** Reversing the coding of one vector moves each pair to the cell of the
    other value. *)
Lemma cell_flip_r (a b : Z) (img1 img2 : ndarray) :
  cell a b img1 (flip img2) = cell a (1 - b) img1 img2.
Proof.
  revert img2. induction img1 as [| x img1 IH]; intros [| y img2];
    try reflexivity.
  unfold flip in *. cbn [map]. rewrite !cell_cons, IH.
  do 2 f_equal. f_equal.
  destruct (Z.eqb_spec (1 - y) b), (Z.eqb_spec y (1 - b)); lia || reflexivity.
Qed.

Lemma cell_flip_l (a b : Z) (img1 img2 : ndarray) :
  cell a b (flip img1) img2 = cell (1 - a) b img1 img2.
Proof.
  rewrite cell_swap, cell_flip_r, cell_swap. reflexivity.
Qed.

Lemma flip_length (img : ndarray) : len (flip img) = len img.
Proof. apply length_map. Qed.

(** Each position falls in at most one cell, and in one exactly when both
    of its entries are coded 0 or 1. *)
Lemma cells_at_most_positions (img1 img2 : ndarray) :
  len img1 = len img2 ->
  count_A img1 img2 + count_B img1 img2 + count_C img1 img2 + count_D img1 img2
  <= Z.of_nat (len img1).
Proof.
  unfold count_A, count_B, count_C, count_D, len.
  revert img2. induction img1 as [| x img1 IH]; intros [| y img2] Hlen;
    [rewrite !cell_nil_l; cbn [length]; lia | discriminate | discriminate |].
  injection Hlen as Hlen. specialize (IH img2 Hlen).
  rewrite !cell_cons. cbn [length]. rewrite Nat2Z.inj_succ.
  destruct (Z.eqb_spec x 0), (Z.eqb_spec x 1), (Z.eqb_spec y 0),
    (Z.eqb_spec y 1); cbn [andb Z.b2z]; lia.
Qed.

Lemma cells_fill_positions_iff (img1 img2 : ndarray) :
  len img1 = len img2 ->
  (count_A img1 img2 + count_B img1 img2
   + count_C img1 img2 + count_D img1 img2 = Z.of_nat (len img1)
   <-> binary img1 = true /\ binary img2 = true).
Proof.
  intros Hlen. split; [| intros [H1 H2]; apply cells_partition; assumption].
  revert img2 Hlen. induction img1 as [| x img1 IH]; intros [| y img2] Hlen;
    try discriminate.
  - intros _. split; reflexivity.
  - injection Hlen as Hlen.
    pose proof (cells_at_most_positions img1 img2 Hlen) as Hle.
    unfold count_A, count_B, count_C, count_D, len in *.
    rewrite !cell_cons. cbn [length]. rewrite Nat2Z.inj_succ.
    intros Hsum. rewrite !binary_cons.
    assert (cell 0 0 img1 img2 + cell 0 1 img1 img2 + cell 1 0 img1 img2
            + cell 1 1 img1 img2 = Z.of_nat (length img1)
            /\ (x = 0 \/ x = 1) /\ (y = 0 \/ y = 1)) as (Hrest & Hx & Hy).
    { destruct (Z.eqb_spec x 0), (Z.eqb_spec x 1), (Z.eqb_spec y 0),
        (Z.eqb_spec y 1); cbn [andb Z.b2z] in Hsum; lia. }
    destruct (IH img2 Hlen Hrest) as [H1 H2]. tauto.
Qed.

End PairedObservations.

(* ================================================================== *)
(** * Further properties, for every reading of float64 *)
(* ================================================================== *)

Section AnyArithmetic.

Local Open Scope Z_scope.

Context {F : Float64}.

(** Lines 24 and 26 multiply A by D: the two can be exchanged. *)
Lemma estimate_exchange_A_D (A B C D : Z) :
  estimate (F := F) D B C A = estimate (F := F) A B C D.
Proof. unfold estimate. rewrite (numpy.multiply_comm D A). reflexivity. Qed.

(** X3.  The returned value depends on the paired observations only through
    how many of them are (0,0), (0,1), (1,0) and (1,1): observing the same
    pairs in another order returns the same value. *)
Theorem reordering_observations (img1 img2 img1' img2' : ndarray) :
  (0 < len img1)%nat -> len img1 = len img2 -> len img1' = len img2' ->
  Permutation (combine img1 img2) (combine img1' img2') ->
  tetrachoric_corr (F := F) img1 img2 = tetrachoric_corr (F := F) img1' img2'.
Proof.
  intros Hpos Hlen Hlen' Hperm.
  assert (len img1' = len img1) as Hn.
  { apply Permutation_length in Hperm. rewrite !length_combine in Hperm.
    unfold len in *. lia. }
  rewrite !tetrachoric_corr_returns by lia.
  unfold count_A, count_B, count_C, count_D.
  rewrite !cell_pair_count.
  rewrite !(fun a b => @pair_count_permutation a b _ _ Hperm).
  reflexivity.
Qed.

(** X4.  Reversing the 0/1 coding of both vectors and exchanging them returns
    the same value, bit for bit: B and C are unchanged and A and D are
    exchanged. *)
Theorem reversed_coding_exchanged (img1 img2 : ndarray) :
  (0 < len img1)%nat -> len img1 = len img2 ->
  tetrachoric_corr (F := F) (flip img2) (flip img1)
  = tetrachoric_corr (F := F) img1 img2.
Proof.
  intros Hpos Hlen.
  rewrite !tetrachoric_corr_returns by (rewrite ?flip_length; lia).
  unfold count_A, count_B, count_C, count_D.
  rewrite !cell_flip_l, !cell_flip_r.
  change (1 - 0) with 1. change (1 - 1) with 0.
  rewrite (cell_swap 1 1 img2 img1), (cell_swap 1 0 img2 img1),
    (cell_swap 0 1 img2 img1), (cell_swap 0 0 img2 img1).
  f_equal. apply estimate_exchange_A_D.
Qed.

(** X5.  The raised error tells which precondition failed.  The checks run in
    order: an empty first vector, then an empty second vector, then
    differing lengths, and the last error carries the two lengths. *)
Theorem raised_error_names_precondition (img1 img2 : ndarray) :
  (tetrachoric_corr (F := F) img1 img2 = Raise (AssertionError Img1Empty)
   <-> len img1 = 0%nat)
  /\ (tetrachoric_corr (F := F) img1 img2 = Raise (AssertionError Img2Empty)
      <-> (0 < len img1)%nat /\ len img2 = 0%nat)
  /\ (forall n1 n2 : nat,
        tetrachoric_corr (F := F) img1 img2
        = Raise (AssertionError (LengthMismatch n1 n2))
        <-> (0 < len img1)%nat /\ (0 < len img2)%nat
            /\ len img1 <> len img2 /\ n1 = len img1 /\ n2 = len img2).
Proof.
  unfold tetrachoric_corr.
  destruct (Nat.ltb_spec 0 (len img1)) as [H1 | H1]; cbn [assert bind];
    [destruct (Nat.ltb_spec 0 (len img2)) as [H2 | H2]; cbn [assert bind];
     [destruct (Nat.eqb_spec (len img1) (len img2)) as [E | E];
      cbn [assert bind] |] |];
    (split; [| split; [| intros n1 n2]]); split; intros H;
    try discriminate H; try lia; try reflexivity;
    try (injection H as <- <-; tauto);
    try (destruct H as (_ & _ & N & -> & ->); first [contradiction | reflexivity]).
Qed.

(** X6.  Entries other than 0 and 1 are not rejected: a position is counted in
    one of the four cells exactly when both of its entries are 0 or 1, so
    the cells add up to at most n, and to n only for binary vectors. *)
Theorem cells_count_coded_positions (img1 img2 : ndarray) :
  len img1 = len img2 ->
  count_A img1 img2 + count_B img1 img2 + count_C img1 img2 + count_D img1 img2
  <= Z.of_nat (len img1)
  /\ (count_A img1 img2 + count_B img1 img2
      + count_C img1 img2 + count_D img1 img2 = Z.of_nat (len img1)
      <-> binary img1 = true /\ binary img2 = true).
Proof.
  intros Hlen. split.
  - apply cells_at_most_positions. assumption.
  - apply cells_fill_positions_iff. assumption.
Qed.

(** X7.  Positions with an entry other than 0 or 1 are ignored: dropping them
    from both vectors returns the same value, as long as a position is
    left. *)
Theorem uncoded_positions_ignored (img1 img2 : ndarray) :
  len img1 = len img2 -> coded_pairs img1 img2 <> [] ->
  tetrachoric_corr (F := F) img1 img2
  = tetrachoric_corr (F := F) (map fst (coded_pairs img1 img2))
                              (map snd (coded_pairs img1 img2)).
Proof.
  intros Hlen Hne.
  assert (0 < len img1)%nat as Hpos.
  { destruct img1; [contradiction Hne; reflexivity | cbn; lia]. }
  assert (0 < len (map fst (coded_pairs img1 img2)))%nat as Hpos'.
  { destruct (coded_pairs img1 img2); [contradiction | cbn; lia]. }
  rewrite !tetrachoric_corr_returns;
    try assumption; [| unfold len; rewrite !length_map; reflexivity].
  unfold count_A, count_B, count_C, count_D.
  rewrite !cell_pair_count, combine_fst_snd. unfold coded_pairs.
  rewrite !pair_count_filter_coded by tauto. reflexivity.
Qed.

End AnyArithmetic.

(* ================================================================== *)
(** * Vectors short enough for the 64-bit product *)
(* ================================================================== *)

Section ShortVectors.

Local Open Scope Z_scope.

(** A and D are counts of disjoint positions: below 2^32 positions their
    product is at most 2^62. *)
Lemma product_fits_int64 (img1 img2 : ndarray) :
  len img1 = len img2 -> Z.of_nat (len img1) < 2 ^ 32 ->
  0 <= count_A img1 img2 * count_D img1 img2 < 2 ^ 63.
Proof.
  intros Hlen Hn.
  pose proof (cells_at_most_positions img1 img2 Hlen) as Hle.
  pose proof (cell_nonneg 0 0 img1 img2) as HA.
  pose proof (cell_nonneg 0 1 img1 img2) as HB.
  pose proof (cell_nonneg 1 0 img1 img2) as HC.
  pose proof (cell_nonneg 1 1 img1 img2) as HD.
  fold (count_A img1 img2) in HA. fold (count_B img1 img2) in HB.
  fold (count_C img1 img2) in HC. fold (count_D img1 img2) in HD.
  change (2 ^ 32) with 4294967296 in Hn.
  change (2 ^ 63) with 9223372036854775808.
  generalize dependent (count_D img1 img2).
  generalize dependent (count_C img1 img2).
  generalize dependent (count_B img1 img2).
  generalize dependent (count_A img1 img2).
  intros A HA B HB C HC D Hle HD.
  assert (A + D < 4294967296) as Hs by lia.
  split; [apply Z.mul_nonneg_nonneg; assumption |].
  pose proof (Z.square_nonneg (A - D)) as Hsq.
  assert ((A + D) * (A + D) <= 4294967295 * 4294967295)
    by (apply Z.mul_le_mono_nonneg; lia).
  lia.
Qed.

(** X14.  On vectors of fewer than 2^32 elements the 64-bit product of
    line 24 is the product of the integers: the function raises the same
    error or returns the same value whether A*D is taken in 64 bits or in
    the integers. *)
Theorem short_vectors_keep_product (img1 img2 : ndarray) :
  Z.of_nat (len img1) < 2 ^ 32 ->
  tetrachoric_corr (F := int64.ops) img1 img2
  = tetrachoric_corr (F := exact.ops) img1 img2.
Proof.
  intros Hn.
  destruct (Nat.ltb_spec 0 (len img1)) as [H1 | H1].
  - destruct (Nat.eqb_spec (len img1) (len img2)) as [E | E].
    + rewrite !tetrachoric_corr_returns by assumption.
      f_equal. apply estimate_int64_fits, product_fits_int64; assumption.
    + unfold tetrachoric_corr.
      rewrite (proj2 (Nat.ltb_lt _ _) H1), (proj2 (Nat.eqb_neq _ _) E).
      destruct (0 <? len img2)%nat; reflexivity.
  - unfold tetrachoric_corr.
    rewrite (proj2 (Nat.ltb_ge _ _) H1). reflexivity.
Qed.

End ShortVectors.

(* ================================================================== *)
(** * The property test against the function *)
(* ================================================================== *)

Section PropertyTest.

Local Open Scope Z_scope.

Lemma all_eq_arrays (a b : ndarray) :
  len a = len b -> (tests.all (tests.eq_arrays a b) = true <-> a = b).
Proof.
  unfold tests.all, len. revert b.
  induction a as [| x a IH]; intros [| y b] Hlen; try discriminate.
  - split; reflexivity.
  - injection Hlen as Hlen. cbn [tests.eq_arrays forallb].
    rewrite andb_true_iff, Z.eqb_eq, (IH b Hlen).
    split; [intros [-> ->]; reflexivity | intros E; injection E; auto].
Qed.

Lemma float_eq_one : tests.float_eq (Fin 1) (Fin 1) = true.
Proof.
  unfold tests.float_eq. destruct (Req_dec_T 1 1) as [_ | N];
    [reflexivity | now elim N].
Qed.


(** The test run on two rows, by the table of their counts. *)
Lemma test_on_identical_rows (vec : ndarray) :
  (0 < len vec)%nat ->
  tests.test_tetrachoric_corr_hypothesis vec vec
  = if 0 <? count_A vec vec * count_D vec vec
    then tests.Passed else tests.Failed 204.
Proof.
  intros Hpos. unfold tests.test_tetrachoric_corr_hypothesis.
  rewrite tetrachoric_corr_returns by auto.
  assert (tests.all (tests.eq_arrays vec vec) = true) as ->
    by (apply all_eq_arrays; reflexivity).
  pose proof (product_nonneg vec vec) as HAD.
  unfold count_B, count_C.
  rewrite (@cell_diag_off 0 1), (@cell_diag_off 1 0) by discriminate.
  destruct (Z.ltb_spec 0 (count_A vec vec * count_D vec vec)) as [H | H].
  - rewrite estimate_one by lia. unfold tests.check.
    rewrite float_eq_one. reflexivity.
  - rewrite estimate_nan by lia. reflexivity.
Qed.



(** A draw the strategy of the test can make, and makes first, fails it:
    two rows of 24 zeros. *)
Lemma property_test_fails_on_zeros :
  tests.drawn (repeat 0 24) = true
  /\ tests.test_tetrachoric_corr_hypothesis (repeat 0 24) (repeat 0 24)
     = tests.Failed 204.
Proof.
  split; [reflexivity |].
  rewrite test_on_identical_rows by (cbn; lia). reflexivity.
Qed.

End PropertyTest.

(* ================================================================== *)
(** * The further properties on concrete vectors *)
(* ================================================================== *)

Section FurtherScenarios.

Local Open Scope Z_scope.

Ltac evaluate := first [reflexivity | simpl; lia].

Lemma reordering_observations_witness :
  tetrachoric_corr (F := exact.ops) [0; 1; 1] [0; 0; 1]
  = tetrachoric_corr (F := exact.ops) [1; 0; 1] [0; 0; 1].
Proof.
  apply (@reordering_observations exact.ops [0; 1; 1] [0; 0; 1]
           [1; 0; 1] [0; 0; 1]); try evaluate.
  simpl. apply perm_swap.
Defined.

Lemma reversed_coding_exchanged_witness :
  tetrachoric_corr (F := exact.ops) (flip [0; 1; 0; 1]) (flip [0; 0; 1; 1])
  = tetrachoric_corr (F := exact.ops) [0; 0; 1; 1] [0; 1; 0; 1].
Proof.
  apply (@reversed_coding_exchanged exact.ops [0; 0; 1; 1] [0; 1; 0; 1]);
    evaluate.
Defined.

Lemma cells_count_coded_positions_witness :
  count_A [0; 2; 1] [1; 1; 5] + count_B [0; 2; 1] [1; 1; 5]
  + count_C [0; 2; 1] [1; 1; 5] + count_D [0; 2; 1] [1; 1; 5]
  <= Z.of_nat (len [0; 2; 1]).
Proof.
  apply (@cells_count_coded_positions [0; 2; 1] [1; 1; 5]). reflexivity.
Defined.

Lemma uncoded_positions_ignored_witness :
  tetrachoric_corr (F := exact.ops) [0; 2; 1; 1] [1; 1; 0; 7]
  = tetrachoric_corr (F := exact.ops)
      (map fst (coded_pairs [0; 2; 1; 1] [1; 1; 0; 7]))
      (map snd (coded_pairs [0; 2; 1; 1] [1; 1; 0; 7])).
Proof.
  apply (@uncoded_positions_ignored exact.ops [0; 2; 1; 1] [1; 1; 0; 7]);
    [reflexivity | discriminate].
Defined.

Lemma short_vectors_keep_product_witness :
  tetrachoric_corr (F := int64.ops) [0; 0; 1; 1] [0; 1; 0; 1]
  = tetrachoric_corr (F := exact.ops) [0; 0; 1; 1] [0; 1; 0; 1].
Proof.
  apply (@short_vectors_keep_product [0; 0; 1; 1] [0; 1; 0; 1]). evaluate.
Defined.


End FurtherScenarios.
